(** * Cofold graph surgery and sequence indexing of forgi

    A shallow embedding of [forgi/graph/_cofold.py] (splitting a bulge
    graph at the cutpoints between the strands of a complex) and of the
    indexing contract of [forgi.graph.sequence.Sequence], whose behaviour is
    fixed by [test/forgi/graph/sequence_test.py].

    The bulge graph is the pair of Python dictionaries [bg.defines]
    (element name to its list of boundary positions) and [bg.edges]
    (element name to the set of neighbouring names; a [defaultdict(set)],
    so a missing key reads as the empty set).  Mutation of [bg] is
    modelled by state passing: every operation takes the graph and returns
    the new graph or the exception it raises. *)

From stdpp Require Import base gmap sets list strings pretty sorting.
From Stdlib Require Import ZArith Ascii.

Open Scope Z_scope.

(** ** Exceptions and the error monad *)

(** The exceptions raised along the modelled paths.  [_cofold.py] imports
    only [logging] and [remove_vertex]: its four raises of
    [GraphConstructionError] (and the [log_to_exception] next to one of
    them) look up a global name the module never binds, so each raises
    [NameError] for that name before any message is built. *)
Inductive py_error :=
| NameError (name : string)
| AssertionError
| KeyError
| IndexError
| LookupError
| ValueError.

Inductive result (A : Type) :=
| Ok (a : A)
| Err (e : py_error).
Arguments Ok {A} a.
Arguments Err {A} e.

Definition bind {A B} (m : result A) (f : A -> result B) : result B :=
  match m with
  | Ok a => f a
  | Err e => Err e
  end.

Notation "'let*' x ':=' m 'in' k" := (bind m (fun x => k))
  (at level 200, x name, m at level 100, k at level 200).

(** [assert cond] of Python. *)
Definition py_assert (b : bool) : result unit :=
  if b then Ok tt else Err AssertionError.

(** ** The bulge graph *)

Record bulge_graph := mkBG {
  defines : gmap string (list Z);
  edges : gmap string (gset string);
  (** [bg.pairing_partner(i)]: the partner of [i] in the pairing table. *)
  pair_table : gmap Z Z
}.

(** [bg.edges[x]] on the [defaultdict(set)]. *)
Definition nbrs (bg : bulge_graph) (x : string) : gset string :=
  default ∅ (edges bg !! x).

Definition pairing_partner (bg : bulge_graph) (i : Z) : Z :=
  default 0 (pair_table bg !! i).

Definition set_defines (bg : bulge_graph) (d : gmap string (list Z)) :=
  mkBG d (edges bg) (pair_table bg).
Definition set_edges (bg : bulge_graph) (e : gmap string (gset string)) :=
  mkBG (defines bg) e (pair_table bg).

(** [bg.defines[k] = v] *)
Definition put_define (bg : bulge_graph) (k : string) (v : list Z) :=
  set_defines bg (<[k := v]> (defines bg)).

(** [bg.defines[k]], raising [KeyError] on an unknown element. *)
Definition get_define (bg : bulge_graph) (k : string) : result (list Z) :=
  match defines bg !! k with
  | Some d => Ok d
  | None => Err KeyError
  end.

(** [l[i]] on a list, raising [IndexError] out of range. *)
Definition nth_err {A} (l : list A) (i : nat) : result A :=
  match l !! i with
  | Some x => Ok x
  | None => Err IndexError
  end.

(** [name[0] == c] and [name[0] in cs] for an element name. *)
Definition tag_is (name : string) (c : ascii) : bool :=
  match name with
  | String c' _ => bool_decide (c' = c)
  | EmptyString => false
  end.

Definition tag_in (name : string) (cs : string) : bool :=
  match name with
  | String c' _ => bool_decide (c' ∈ String.list_ascii_of_string cs)
  | EmptyString => false
  end.

(** ** [_next_available_element_name] *)

(** ["{}{}".format(element_type, i)] *)
Definition element_name (element_type : string) (i : nat) : string :=
  element_type +:+ pretty i.

(** The [while True] loop from [i]; it runs at most [fuel] rounds, and the
    fuel given below is enough for the loop to stop by itself
    ([next_available_element_name_spec]). *)
Fixpoint next_name_from (defs : gmap string (list Z)) (element_type : string)
    (fuel : nat) (i : nat) : string :=
  match fuel with
  | O => element_name element_type i
  | S fuel' =>
      let name := element_name element_type i in
      match defs !! name with
      | None => name
      | Some _ => next_name_from defs element_type fuel' (S i)
      end
  end.

Definition _next_available_element_name (bg : bulge_graph) (element_type : string) : string :=
  next_name_from (defines bg) element_type (S (size (defines bg))) 0.

(** ** Graph primitives *)

(** [_add_edge]: both directions, on the [defaultdict(set)]. *)
Definition add_nbr (e : gmap string (gset string)) (x y : string) : gmap string (gset string) :=
  <[x := {[y]} ∪ default ∅ (e !! x)]> e.

Definition _add_edge (bg : bulge_graph) (from_element to_element : string) : bulge_graph :=
  set_edges bg (add_nbr (add_nbr (edges bg) from_element to_element) to_element from_element).

(** [_remove_edge]: [set.remove] raises [KeyError] on an absent member. *)
Definition _remove_edge (bg : bulge_graph) (from_element to_element : string) : result bulge_graph :=
  if decide (to_element ∈ nbrs bg from_element) then
    let e1 := <[from_element := nbrs bg from_element ∖ {[to_element]}]> (edges bg) in
    let s := default ∅ (e1 !! to_element) in
    if decide (from_element ∈ s) then
      Ok (set_edges bg (<[to_element := s ∖ {[from_element]}]> e1))
    else Err KeyError
  else Err KeyError.

(** Modelled from the spec: [remove_vertex] of
    [forgi/graph/_graph_construction.py] is not among the sources.  It is
    the element removal of the spec (section 3, Lifecycle): the element's
    define, its own entry in [edges] and every edge pointing to it are
    deleted. *)
Definition remove_vertex (bg : bulge_graph) (v : string) : bulge_graph :=
  mkBG (delete v (defines bg))
       ((fun s => s ∖ {[v]}) <$> delete v (edges bg))
       (pair_table bg).

Definition rename (old_name new_name x : string) : string :=
  if decide (x = old_name) then new_name else x.

(** Modelled from the spec: [BulgeGraph.relabel_node] is not among the
    sources.  Relabeling (section 3, Lifecycle) moves the define and the
    edge entry of [old_name] to [new_name] and renames every edge that
    pointed to [old_name]; an unknown [old_name] raises [KeyError]. *)
Definition relabel_node (bg : bulge_graph) (old_name new_name : string) : result bulge_graph :=
  let* d := get_define bg old_name in
  Ok (mkBG (<[new_name := d]> (delete old_name (defines bg)))
           ((fun s : gset string => set_map (C := gset string) (D := gset string)
                                    (rename old_name new_name) s)
              <$> <[new_name := nbrs bg old_name]> (delete old_name (edges bg)))
           (pair_table bg)).

(** Positions covered by a define: its consecutive [start, end] pairs. *)
Fixpoint in_define_ranges (d : list Z) (pos : Z) : bool :=
  match d with
  | a :: b :: rest => ((a <=? pos) && (pos <=? b)) || in_define_ranges rest pos
  | _ => false
  end.

(** Modelled from the spec: [BulgeGraph.get_node_from_residue_num] is not
    among the sources.  It returns the element owning the nucleotide
    (section 4.3), the first in [defines] whose ranges contain it, and
    raises [LookupError] when no element does. *)
Definition get_node_from_residue_num (bg : bulge_graph) (pos : Z) : result string :=
  match list_find (fun kd : string * list Z => in_define_ranges kd.2 pos = true)
                  (map_to_list (defines bg)) with
  | Some (_, (k, _)) => Ok k
  | None => Err LookupError
  end.

Definition first_pos (bg : bulge_graph) (x : string) : Z :=
  default 0 (head (default [] (defines bg !! x))).

Definition first_pos_le (bg : bulge_graph) (x y : string) : Prop :=
  first_pos bg x <= first_pos bg y.

Global Instance first_pos_le_dec bg : RelDecision (first_pos_le bg).
Proof. intros x y. unfold first_pos_le. apply _. Defined.

(** Modelled from the spec: [BulgeGraph.connections] is not among the
    sources: the neighbours of an element, ordered along the backbone by
    the first position of their defines (so an interior loop lists its
    outer stem first). *)
Definition connections (bg : bulge_graph) (elem : string) : list string :=
  merge_sort (first_pos_le bg) (elements (nbrs bg elem)).

(** Each strand of a define widened by the nucleotide on either side. *)
Fixpoint widen (d : list Z) : list Z :=
  match d with
  | a :: b :: rest => (a - 1) :: (b + 1) :: widen rest
  | _ => d
  end.

(** Modelled from the spec: [BulgeGraph.define_a] is not among the sources.
    A zero-length connector (empty define) joins two elements that are
    directly adjacent along the backbone (section 3, Element); its define_a
    is that pair of adjacent nucleotides [x; x+1], [x] in one neighbour and
    [x+1] in another.  Other elements get their define widened by the
    flanking nucleotides. *)
Definition define_a (bg : bulge_graph) (elem : string) : result (list Z) :=
  let* d := get_define bg elem in
  match d with
  | [] =>
      let ns := elements (nbrs bg elem) in
      let defs x := default [] (defines bg !! x) in
      let cands :=
        flat_map (fun A =>
          flat_map (fun B =>
            if decide (A = B) then []
            else filter (fun x => (x + 1) ∈ defs B) (defs A)) ns) ns in
      match cands with
      | x :: _ => Ok [x; x + 1]
      | [] => Err ValueError
      end
  | _ => Ok (widen d)
  end.

(** Modelled from the spec: [BulgeGraph.flanking_nucleotides] is not among
    the sources: the nucleotides directly flanking the element, that is
    the boundary nucleotides of the neighbours it touches (section 4.3,
    rule 5), which are the extra entries of [define_a]. *)
Definition flanking_nucleotides (bg : bulge_graph) (elem : string) : result (list Z) :=
  define_a bg elem.

(** Python's [max] and [min] raise [ValueError] on an empty list. *)
Definition py_max (l : list Z) : result Z :=
  match l with [] => Err ValueError | x :: r => Ok (fold_left Z.max r x) end.
Definition py_min (l : list Z) : result Z :=
  match l with [] => Err ValueError | x :: r => Ok (fold_left Z.min r x) end.

(** ** The splitting operations of [_cofold.py] *)

(** [raise GraphConstructionError(...)] in [_cofold.py]: the name is not
    imported. *)
Definition raise_GraphConstructionError {A} : result A := Err (NameError "GraphConstructionError").

(** The [for connection in connections] loop of [_split_between_elements]:
    the first connection (in set iteration order) that is an interior loop
    or a zero-length element whose [define_a] starts at the splitpoint;
    [None] is the [else] clause of the loop. *)
Fixpoint find_connection (bg : bulge_graph) (splitpoint : Z) (cs : list string)
    : result (option string) :=
  match cs with
  | [] => Ok None
  | connection :: rest =>
      if tag_is connection "i"%char then Ok (Some connection) else
      let* d := get_define bg connection in
      match d with
      | [] =>
          let* ad_define := define_a bg connection in
          let* a0 := nth_err ad_define 0 in
          if decide (a0 = splitpoint) then Ok (Some connection)
          else find_connection bg splitpoint rest
      | _ => find_connection bg splitpoint rest
      end
  end.

Definition _split_between_elements (bg : bulge_graph) (splitpoint : Z)
    (element_left element_right : string) : result bulge_graph :=
  if tag_in element_left "mh" then
    let next3 := _next_available_element_name bg "t" in
    let* bg1 := relabel_node bg element_left next3 in
    if negb (tag_is element_left "h"%char) then _remove_edge bg1 next3 element_right
    else Ok bg1
  else if tag_in element_right "mh" then
    let next5 := _next_available_element_name bg "f" in
    let* bg1 := relabel_node bg element_right next5 in
    if negb (tag_is element_right "h"%char) then _remove_edge bg1 next5 element_left
    else Ok bg1
  else
    let* _ := py_assert (tag_is element_left "s"%char && tag_is element_right "s"%char) in
    let conns := nbrs bg element_left ∩ nbrs bg element_right in
    if decide (size conns = 0)%nat then
      raise_GraphConstructionError
    else
      let* found := find_connection bg splitpoint (elements conns) in
      match found with
      | None => raise_GraphConstructionError
      | Some connection =>
          if tag_is connection "m"%char then Ok (remove_vertex bg connection)
          else
            let* _ := py_assert (tag_is connection "i"%char) in
            let nextML := _next_available_element_name bg "m" in
            let* _ := py_assert (bool_decide (defines bg !! nextML = None)) in
            relabel_node bg connection nextML
      end.

Definition _split_inside_loop (bg : bulge_graph) (splitpoint : Z) (element : string)
    : result bulge_graph :=
  if tag_in element "hm" then
    let* d := get_define bg element in
    match d with
    | [from_; to_] =>
        let* stem_left := get_node_from_residue_num bg (from_ - 1) in
        let* stem_right := get_node_from_residue_num bg (to_ + 1) in
        let next3 := _next_available_element_name bg "t" in
        let next5 := _next_available_element_name bg "f" in
        let bg1 := put_define bg next3 [from_; splitpoint] in
        let bg2 := put_define bg1 next5 [splitpoint + 1; to_] in
        let bg3 := _add_edge bg2 stem_left next3 in
        let bg4 := _add_edge bg3 next5 stem_right in
        Ok (remove_vertex bg4 element)
    | _ => Err ValueError
    end
  else Err AssertionError.

(** One round of the edge loop of [_split_inside_stem]: [true] when the
    edge goes to [edges1]. *)
Definition classify_edge (bg : bulge_graph) (define1 define2 : list Z) (edge : string)
    : result bool :=
  let* fl := flanking_nucleotides bg edge in
  let* mx := py_max fl in
  let* mn := py_min fl in
  let* d1_0 := nth_err define1 0 in
  let* d1_3 := nth_err define1 3 in
  if bool_decide (mx = d1_0) || bool_decide (mn = d1_3) then Ok true else
  let* d2_2 := nth_err define2 2 in
  let* d2_1 := nth_err define2 1 in
  if bool_decide (mx = d2_2) || bool_decide (mn = d2_1) then Ok false
  else Err AssertionError.

Fixpoint partition_edges (bg : bulge_graph) (define1 define2 : list Z) (es : list string)
    : result (list string * list string) :=
  match es with
  | [] => Ok ([], [])
  | edge :: rest =>
      let* b := classify_edge bg define1 define2 edge in
      let* p := partition_edges bg define1 define2 rest in
      Ok (if b then (edge :: p.1, p.2) else (p.1, edge :: p.2))
  end.

(** [for e in es: bg.edges[e].add(x)] *)
Definition add_all (bg : bulge_graph) (es : list string) (x : string) : bulge_graph :=
  fold_left (fun g e => set_edges g (add_nbr (edges g) e x)) es bg.

Definition _split_inside_stem (bg : bulge_graph) (splitpoint : Z) (element : string)
    : result bulge_graph :=
  let* _ := py_assert (tag_is element "s"%char) in
  let* d := get_define bg element in
  let* d1 := nth_err d 1 in
  if decide (splitpoint = d1) then Ok bg else
  let* d0 := nth_err d 0 in
  let* d2 := nth_err d 2 in
  let* d3 := nth_err d 3 in
  let defs :=
    if decide (splitpoint < d1) then
      ([d0; splitpoint; pairing_partner bg splitpoint; d3],
       [splitpoint + 1; d1; d2; pairing_partner bg (splitpoint + 1)])
    else
      ([d0; pairing_partner bg (splitpoint + 1); splitpoint + 1; d3],
       [pairing_partner bg splitpoint; d1; d2; splitpoint]) in
  let define1 := defs.1 in
  let define2 := defs.2 in
  let* parts := partition_edges bg define1 define2 (elements (nbrs bg element)) in
  let edges1 := parts.1 in
  let edges2 := parts.2 in
  let bg1 := remove_vertex bg element in
  let nextS1 := _next_available_element_name bg1 "s" in
  let bg2 := put_define bg1 nextS1 define1 in
  let nextM := _next_available_element_name bg2 "m" in
  let bg3 := put_define bg2 nextM [] in
  let nextS2 := _next_available_element_name bg3 "s" in
  let bg4 := put_define bg3 nextS2 define2 in
  let bg5 := add_all bg4 edges1 nextS1 in
  let bg6 := add_all bg5 edges2 nextS2 in
  Ok (set_edges bg6
        (<[nextM := {[nextS1; nextS2]}]>
         (<[nextS2 := list_to_set (edges2 ++ [nextM])]>
          (<[nextS1 := list_to_set (edges1 ++ [nextM])]> (edges bg6))))).

Definition _split_interior_loop_at_side (bg : bulge_graph) (splitpoint : Z)
    (strand other_strand : Z * Z) (stems : list string) : result bulge_graph :=
  let nextML := _next_available_element_name bg "m" in
  let nextA := _next_available_element_name bg "t" in
  let nextB := _next_available_element_name bg "f" in
  let bg1 := put_define bg nextML
               (if decide (other_strand.1 > other_strand.2) then []
                else [other_strand.1; other_strand.2]) in
  let* stem0 := nth_err stems 0 in
  let* stem1 := nth_err stems 1 in
  let bg2 := _add_edge (_add_edge bg1 nextML stem0) nextML stem1 in
  let bg3 := if decide (splitpoint >= strand.1)
             then _add_edge (put_define bg2 nextA [strand.1; splitpoint]) nextA stem0
             else bg2 in
  let bg4 := if decide (splitpoint < strand.2)
             then _add_edge (put_define bg3 nextB [splitpoint + 1; strand.2]) nextB stem1
             else bg3 in
  Ok bg4.

Definition _split_interior_loop (bg : bulge_graph) (splitpoint : Z)
    (element_left element_right : string) : result bulge_graph :=
  let* iloop :=
    if tag_is element_left "i"%char then Ok element_left
    else if tag_is element_right "i"%char then Ok element_right
    else Err AssertionError in
  let c := connections bg iloop in
  let* c0 := nth_err c 0 in
  let* s1 := get_define bg c0 in
  let* c1 := nth_err c 1 in
  let* s2 := get_define bg c1 in
  let* s1_1 := nth_err s1 1 in
  let* s2_0 := nth_err s2 0 in
  let forward_strand := (s1_1 + 1, s2_0 - 1) in
  let* s2_3 := nth_err s2 3 in
  let* s1_2 := nth_err s1 2 in
  let back_strand := (s2_3 + 1, s1_2 - 1) in
  let* bg1 :=
    if decide (forward_strand.1 - 1 <= splitpoint <= forward_strand.2) then
      _split_interior_loop_at_side bg splitpoint forward_strand back_strand [c0; c1]
    else if decide (back_strand.1 - 1 <= splitpoint <= back_strand.2) then
      _split_interior_loop_at_side bg splitpoint back_strand forward_strand [c1; c0]
    else Err AssertionError in
  Ok (remove_vertex bg1 iloop).

(** [stem_length(bg, key)]: the number of base pairs of the stem [key]. *)
Definition stem_length (bg : bulge_graph) (key : string) : result Z :=
  let* d := get_define bg key in
  let* _ := py_assert (tag_is key "s"%char) in
  let* d1 := nth_err d 1 in
  let* d0 := nth_err d 0 in
  Ok (d1 - d0 + 1).

(** ** [split_at_cofold_cutpoints] and [_is_connected] *)

(** The body of [for splitpoint in cutpoints]; both [continue] and a normal
    round go on with the current graph. *)
Definition cofold_step (bg : bulge_graph) (splitpoint : Z) : result bulge_graph :=
  let* element_left := get_node_from_residue_num bg splitpoint in
  let* element_right := get_node_from_residue_num bg (splitpoint + 1) in
  if tag_in element_left "ft" || tag_in element_right "ft" then
    if tag_is element_left "t"%char && negb (tag_is element_left "t"%char) then Ok bg
    else if tag_is element_right "f"%char && negb (tag_is element_left "f"%char) then Ok bg
    else raise_GraphConstructionError
  else if tag_is element_left "i"%char || tag_is element_right "i"%char then
    _split_interior_loop bg splitpoint element_left element_right
  else if negb (bool_decide (element_left = element_right)) then
    _split_between_elements bg splitpoint element_left element_right
  else if tag_is element_left "s"%char then
    _split_inside_stem bg splitpoint element_left
  else
    _split_inside_loop bg splitpoint element_left.

Fixpoint cofold_loop (bg : bulge_graph) (cutpoints : list Z) : result bulge_graph :=
  match cutpoints with
  | [] => Ok bg
  | splitpoint :: rest =>
      let* bg' := cofold_step bg splitpoint in
      cofold_loop bg' rest
  end.

(** The [while pending] loop of [_is_connected].  [pending] is a Python list
    used as a stack: [pop()] takes its last element, [extend] appends at
    the end; here the top of the stack is the head of the list.  At most
    [fuel] rounds are run; [dfs_fuel] is enough for the loop to finish
    by itself ([dfs_fuel_enough]). *)
Fixpoint dfs (bg : bulge_graph) (fuel : nat) (known : gset string) (pending : list string)
    : option (gset string) :=
  match fuel with
  | O => None
  | S fuel' =>
      match pending with
      | [] => Some known
      | next_node :: rest =>
          if decide (next_node ∈ known) then dfs bg fuel' known rest
          else dfs bg fuel' ({[next_node]} ∪ known) (rev (elements (nbrs bg next_node)) ++ rest)
      end
  end.

(** Edges still to be pushed: the neighbour sets of the unvisited nodes. *)
Definition unvisited_weight (bg : bulge_graph) (known : gset string) : nat :=
  list_sum (map (fun x => size (nbrs bg x)) (elements (dom (edges bg) ∖ known))).

Definition dfs_fuel (bg : bulge_graph) (known : gset string) (pending : list string) : nat :=
  S (length pending + unvisited_weight bg known).

(** [list(bg.defines.keys())[0]]: [IndexError] on an empty graph. *)
Definition first_element (bg : bulge_graph) : option string :=
  match map_to_list (defines bg) with
  | [] => None
  | (k, _) :: _ => Some k
  end.

Definition _is_connected (bg : bulge_graph) : result bool :=
  match first_element bg with
  | None => Err IndexError
  | Some start_node =>
      let known := {[start_node]} in
      let pending := rev (elements (nbrs bg start_node)) in
      match dfs bg (dfs_fuel bg known pending) known pending with
      | Some known_nodes => Ok (bool_decide (known_nodes = dom (defines bg)))
      | None => Ok false
      end
  end.

Definition split_at_cofold_cutpoints (bg : bulge_graph) (cutpoints : list Z)
    : result bulge_graph :=
  let* bg' := cofold_loop bg cutpoints in
  let* connected := _is_connected bg' in
  if connected then Ok bg' else raise_GraphConstructionError.

(** ** Concrete graphs *)

Definition mk_graph (ds : list (string * list Z)) (es : list (string * string))
    (pairs : list (Z * Z)) : bulge_graph :=
  fold_left (fun g '(a, b) => _add_edge g a b) es
    (mkBG (list_to_map ds) ∅ (list_to_map (pairs ++ map (fun '(i, j) => (j, i)) pairs))).

(** ["((.((...)).))"]: an interior loop [i0] between [s0] and [s1]. *)
Definition g_iloop : bulge_graph :=
  mk_graph [("s0", [1; 2; 12; 13]); ("i0", [3; 3; 11; 11]); ("s1", [4; 5; 9; 10]); ("h0", [6; 8])]
           [("s0", "i0"); ("i0", "s1"); ("s1", "h0")]
           [(1, 13); (2, 12); (4, 10); (5, 9)].

(** ["((...))"]: one stem closed by a hairpin. *)
Definition g_hairpin : bulge_graph :=
  mk_graph [("s0", [1; 2; 6; 7]); ("h0", [3; 5])] [("s0", "h0")] [(1, 7); (2, 6)].

(** ["((&))"] built as ["(())"]: a stem whose two strands meet directly. *)
Definition g_kissing_stem : bulge_graph :=
  mk_graph [("s0", [1; 2; 3; 4])] [] [(1, 4); (2, 3)].

(** ["((.)(.))"]: a multiloop of three stems and zero-length connectors. *)
Definition g_multiloop : bulge_graph :=
  mk_graph [("s0", [1; 1; 8; 8]); ("s1", [2; 2; 4; 4]); ("h0", [3; 3]);
            ("s2", [5; 5; 7; 7]); ("h1", [6; 6]);
            ("m0", []); ("m1", []); ("m2", [])]
           [("s0", "m0"); ("m0", "s1"); ("s1", "h0"); ("s1", "m1"); ("m1", "s2");
            ("s2", "h1"); ("s2", "m2"); ("m2", "s0")]
           [(1, 8); (2, 4); (5, 7)].

(** ["((.))..((.))"] split after the first hairpin: two molecules with no
    base pair between them (the cofold scenario of spec section 8). *)
Definition g_two_hairpins : bulge_graph :=
  mk_graph [("s0", [1; 2; 4; 5]); ("h0", [3; 3]); ("m0", [6; 7]);
            ("s1", [8; 9; 11; 12]); ("h1", [10; 10])]
           [("s0", "h0"); ("s0", "m0"); ("m0", "s1"); ("s1", "h1")]
           [(1, 5); (2, 4); (8, 12); (9, 11)].

(** ["((..))((..))"]: two hairpins with no base pair and no element between
    them. *)
Definition g_no_link : bulge_graph :=
  mk_graph [("s0", [1; 2; 5; 6]); ("h0", [3; 4]); ("s1", [7; 8; 11; 12]); ("h1", [9; 10])]
           [("s0", "h0"); ("s1", "h1")]
           [(1, 6); (2, 5); (7, 12); (8, 11)].

(** * Proofs *)

(** ["..((...))"]: a 5' dangling end [f0] of two nucleotides. *)
Definition g_f_end : bulge_graph :=
  mk_graph [("f0", [1; 2]); ("s0", [3; 4; 8; 9]); ("h0", [5; 7])]
           [("f0", "s0"); ("s0", "h0")] [(3, 9); (4, 8)].

(** [g_iloop] after the cut at 2: the strand [3..3] became the 5' end
    [f0], the other strand the multiloop segment [m0]. *)
Definition g_iloop_cut2 : bulge_graph :=
  mk_graph [("s0", [1; 2; 12; 13]); ("f0", [3; 3]); ("m0", [11; 11]); ("s1", [4; 5; 9; 10]);
            ("h0", [6; 8])]
           [("s0", "m0"); ("m0", "s1"); ("f0", "s1"); ("s1", "h0")]
           [(1, 13); (2, 12); (4, 10); (5, 9)].

(** [g_iloop] after the cut at 3: the strand [3..3] became the 3' end
    [t0], the other strand the multiloop segment [m0]. *)
Definition g_iloop_cut3 : bulge_graph :=
  mk_graph [("s0", [1; 2; 12; 13]); ("t0", [3; 3]); ("m0", [11; 11]); ("s1", [4; 5; 9; 10]);
            ("h0", [6; 8])]
           [("s0", "t0"); ("s0", "m0"); ("m0", "s1"); ("s1", "h0")]
           [(1, 13); (2, 12); (4, 10); (5, 9)].

(** [g_hairpin] after the cut at 1: the stem split into [s0] and [s1]
    joined by the empty multiloop segment [m0]. *)
Definition g_hairpin_cut1 : bulge_graph :=
  mk_graph [("s0", [1; 1; 7; 7]); ("m0", []); ("s1", [2; 2; 6; 6]); ("h0", [3; 5])]
           [("s0", "m0"); ("m0", "s1"); ("s1", "h0")] [(1, 7); (2, 6)].

(** ** Well-formed graphs and the edge maps *)

(** The data model (section 3): [edges] is symmetric, names only elements,
    and joins two different elements. *)
Definition edges_symmetric (bg : bulge_graph) : Prop :=
  forall x y, y ∈ nbrs bg x <-> x ∈ nbrs bg y.
Definition edges_name_elements (bg : bulge_graph) : Prop :=
  forall x y, y ∈ nbrs bg x -> is_Some (defines bg !! y).
Definition no_self_edges (bg : bulge_graph) : Prop :=
  forall x, x ∉ nbrs bg x.
Definition well_formed (bg : bulge_graph) : Prop :=
  edges_symmetric bg /\ edges_name_elements bg /\ no_self_edges bg.

(** The same conditions checked entry by entry, decidably. *)
Definition well_formed_check (bg : bulge_graph) : Prop :=
  map_Forall (fun x s => set_Forall (fun y => y <> x /\ is_Some (defines bg !! y) /\ x ∈ nbrs bg y) s)
             (edges bg).

Global Instance well_formed_check_dec bg : Decision (well_formed_check bg).
Proof. unfold well_formed_check. apply _. Defined.

(** [y ∈ bg.edges[x]]: the relation the traversal of [_is_connected]
    follows. *)
Definition adj (bg : bulge_graph) (x y : string) : Prop := y ∈ nbrs bg x.

(** ** The sequence indexing layer *)

(** Modelled from the spec: a residue id (section 3, ResidueId) is a
    chain label, a sequence number and an optional insertion code. *)
Record resid := RESID { chain : string; resnum : Z; icode : option ascii }.

Global Instance resid_eq_dec : EqDecision resid.
Proof. solve_decision. Defined.

(** Modelled from the spec: one residue of the full sequence, with its
    one-character code and whether it was observed. *)
Record nt := NT { nt_id : resid; nt_code : string; nt_observed : bool }.

(** Modelled from the spec: the Sequence record of section 3: the observed
    codes (chain breaks removed), the parallel list of observed residue
    ids, the break positions, the missing-residue records and the
    modification overlay. *)
Record sequence := mkSeq {
  _seq : string;
  _seqids : list resid;
  _breaks_after : list nat;
  _missing : list (resid * string);
  _modifications : list (resid * string)
}.

(** Modelled from the spec: the observed residues, in order. *)
Fixpoint zip_observed (codes : list ascii) (ids : list resid) : list nt :=
  match codes, ids with
  | c :: cs, r :: rs => NT r (String c EmptyString) true :: zip_observed cs rs
  | _, _ => []
  end.

Definition observed_nts (s : sequence) : list nt :=
  zip_observed (String.list_ascii_of_string (_seq s)) (_seqids s).

(** Modelled from the spec: the numbering order inside a chain: by
    sequence number, then no insertion code before any, then by code. *)
Definition icode_lt (a b : option ascii) : bool :=
  match a, b with
  | None, Some _ => true
  | Some x, Some y => (N_of_ascii x <? N_of_ascii y)%N
  | _, _ => false
  end.

Definition resid_lt (r1 r2 : resid) : bool :=
  (resnum r1 <? resnum r2) || ((resnum r1 =? resnum r2) && icode_lt (icode r1) (icode r2)).

Definition same_chain (r1 r2 : resid) : bool := bool_decide (chain r1 = chain r2).

(** Modelled from the spec: put [m] in front of the first element
    satisfying [p], if there is one. *)
Fixpoint insert_at_first (p : nt -> bool) (m : nt) (l : list nt) : option (list nt) :=
  match l with
  | [] => None
  | e :: l' => if p e then Some (m :: e :: l') else (e ::.) <$> insert_at_first p m l'
  end.

(** Modelled from the spec: a missing residue goes into the numeric gap of
    its chain: before the first residue of the chain numbered after it,
    else after the last residue of its chain, else at the end. *)
Definition insert_missing (F : list nt) (m : nt) : list nt :=
  match insert_at_first (fun e => same_chain (nt_id e) (nt_id m) && resid_lt (nt_id m) (nt_id e)) m F with
  | Some F' => F'
  | None =>
      match insert_at_first (fun e => same_chain (nt_id e) (nt_id m)) m (rev F) with
      | Some R => rev R
      | None => F ++ [m]
      end
  end.

(** Modelled from the spec: the full, biologically numbered sequence that
    [with_missing] reconstructs. *)
Definition full_nts (s : sequence) : list nt :=
  fold_left insert_missing (map (fun '(r, name) => NT r name false) (_missing s)) (observed_nts s).

(** Modelled from the spec: a view of the sequence (section 4.5).  Views
    wrap the sequence without copying it: a view is the sequence read with
    the two flags [with_missing] and [with_modifications]. *)
Record view := View { vw_missing : bool; vw_modifications : bool }.

Definition base_view : view := View false false.
Definition with_missing (v : view) : view := View true (vw_modifications v).
Definition with_modifications (v : view) : view := View (vw_missing v) true.

(** The residues the view addresses. *)
Definition view_nts (v : view) (s : sequence) : list nt :=
  if vw_missing v then full_nts s else observed_nts s.

Definition seq_len (v : view) (s : sequence) : nat := length (view_nts v s).

Fixpoint assoc_lookup (r : resid) (l : list (resid * string)) : option string :=
  match l with
  | [] => None
  | (r', x) :: l' => if decide (r' = r) then Some x else assoc_lookup r l'
  end.

(** Modelled from the spec: what the view shows for a residue: its code,
    or its entry in the modification overlay in a [with_modifications]
    view. *)
Definition display (v : view) (s : sequence) (e : nt) : string :=
  if vw_modifications v then default (nt_code e) (assoc_lookup (nt_id e) (_modifications s))
  else nt_code e.

(** The 0-based position of residue [r] in a residue list. *)
Fixpoint find_pos (r : resid) (l : list nt) : option nat :=
  match l with
  | [] => None
  | e :: l' => if decide (nt_id e = r) then Some 0%nat else S <$> find_pos r l'
  end.

(** Modelled from the spec: resolving a residue id in a view.  An id
    absent from the view raises [LookupError]; the tests
    ([test_indexing_with_resid_without_missing] and
    [test_indexing_with_missing]) fix that a known missing residue
    addressed without [with_missing] raises [IndexError]. *)
Definition resid_to_pos (v : view) (s : sequence) (r : resid) : result nat :=
  match find_pos r (view_nts v s) with
  | Some i => Ok i
  | None =>
      if bool_decide (r ∈ map fst (_missing s)) && negb (vw_missing v) then Err IndexError
      else Err LookupError
  end.

(** Modelled from the spec: the 0-based index in [observed_nts] of a
    1-based positive or negative integer position; outside
    [1 .. n] and [-n .. -1] it raises [IndexError]. *)
Definition int_to_observed (s : sequence) (k : Z) : result nat :=
  let n := Z.of_nat (length (observed_nts s)) in
  if bool_decide (1 <= k <= n) then Ok (Z.to_nat (k - 1))
  else if bool_decide (- n <= k <= -1) then Ok (Z.to_nat (n + k))
  else Err IndexError.

Definition nth_nt (l : list nt) (i : nat) : result nt :=
  match l !! i with Some e => Ok e | None => Err IndexError end.

(** Modelled from the spec: [seq[k]] for an integer [k]; integer positions
    count observed residues in every view, as the slice bounds of the
    tests do. *)
Definition getitem_int (v : view) (s : sequence) (k : Z) : result string :=
  let* i := int_to_observed s k in
  let* e := nth_nt (observed_nts s) i in
  Ok (display v s e).

(** Modelled from the spec: [seq[r]] for a residue id [r]. *)
Definition getitem_resid (v : view) (s : sequence) (r : resid) : result string :=
  let* i := resid_to_pos v s r in
  let* e := nth_nt (view_nts v s) i in
  Ok (display v s e).

(** Modelled from the spec: the position in the view of the residue at the
    positive integer position [k]. *)
Definition int_to_view_pos (v : view) (s : sequence) (k : Z) : result nat :=
  let* i := int_to_observed s k in
  let* e := nth_nt (observed_nts s) i in
  resid_to_pos v s (nt_id e).

(** A slice bound. *)
Inductive key := KInt (k : Z) | KResid (r : resid).

(** Modelled from the spec: a slice start; a negative start is rejected. *)
Definition slice_start (v : view) (s : sequence) (k : key) : result nat :=
  match k with
  | KInt k => if bool_decide (1 <= k) then int_to_view_pos v s k else Err IndexError
  | KResid r => resid_to_pos v s r
  end.

(** Modelled from the spec: a slice stop; a negative stop counts from the
    end of the view for a forward step and is rejected for a backward
    one. *)
Definition slice_stop (v : view) (s : sequence) (forward : bool) (k : key) : result nat :=
  match k with
  | KInt k =>
      if bool_decide (1 <= k) then int_to_view_pos v s k
      else if forward && bool_decide (k < 0) && bool_decide (0 <= Z.of_nat (seq_len v s) + k - 1)
      then Ok (Z.to_nat (Z.of_nat (seq_len v s) + k - 1))
      else Err IndexError
  | KResid r => resid_to_pos v s r
  end.

(** The residues from position [i] up to [j], both included. *)
Definition range_fwd (l : list nt) (i j : nat) : list nt := take (S j - i) (drop i l).

(** Modelled from the spec: [seq[start:stop:step]] with inclusive bounds
    (the chain-break markers are not modelled).  Only the steps [1] and
    [-1] are accepted; any other step, [0] included, raises [IndexError]. *)
Definition getslice (v : view) (s : sequence) (start stop : option key) (step : option Z)
    : result (list string) :=
  let st := default 1 step in
  if bool_decide (st <> 1 /\ st <> -1) then Err IndexError else
  let forward := bool_decide (st = 1) in
  let last := pred (seq_len v s) in
  let* i := match start with
            | Some k => slice_start v s k
            | None => Ok (if forward then 0%nat else last)
            end in
  let* j := match stop with
            | Some k => slice_stop v s forward k
            | None => Ok (if forward then last else 0%nat)
            end in
  let l := view_nts v s in
  Ok (map (display v s) (if forward then range_fwd l i j else rev (range_fwd l j i))).

(** Modelled from the spec: the 1-based position in the view of the
    residue at the integer position [k]. *)
Definition define_pos (v : view) (s : sequence) (k : Z) : result Z :=
  if vw_missing v then
    let* i := int_to_view_pos v s k in Ok (Z.of_nat i + 1)
  else Ok k.

(** Modelled from the spec: [define_length(boundaries)]: the sum of
    [end - start + 1] over the pairs of boundaries, measured in the
    view. *)
Fixpoint define_length_in (pos : Z -> result Z) (d : list Z) : result Z :=
  match d with
  | [] => Ok 0
  | a :: b :: rest =>
      let* x := pos a in
      let* y := pos b in
      let* t := define_length_in pos rest in
      Ok (y - x + 1 + t)
  | [_] => Err ValueError
  end.

Definition define_length (v : view) (s : sequence) (d : list Z) : result Z :=
  define_length_in (define_pos v s) d.

(** The sequences of [sequence_test.py]. *)
Definition rid (c : string) (n : Z) : resid := RESID c n None.
Definition ridi (c : string) (n : Z) (i : ascii) : resid := RESID c n (Some i).

Definition seq1 : sequence :=
  mkSeq "CAUAAUUUCCG"
    [rid "A" 14; rid "A" 15; ridi "A" 15 "A"; rid "A" 16; rid "A" 18; rid "A" 19;
     rid "A" 20; rid "A" 21; rid "A" 22; rid "A" 23; rid "A" 24]
    []
    [(rid "A" 8, "G"); (ridi "A" 10 "D", "G"); (rid "A" 17, "C"); (ridi "A" 20 "A", "C");
     (ridi "A" 20 "B", "G"); (rid "A" 25, "G")]
    [].

Definition seq2 : sequence :=
  mkSeq "AAAGGG"
    [rid "A" 14; rid "A" 15; ridi "A" 15 "A"; rid "B" 12; rid "B" 13; ridi "B" 200 "A"]
    [2%nat]
    [(rid "A" 13, "G"); (ridi "A" 16 "D", "G"); (rid "B" 11, "C"); (ridi "B" 202 "A", "C")]
    [(rid "A" 13, "I"); (ridi "B" 200 "A", "Hallo")].


(** ** Fresh element names *)

Section NextName.
Variable defs : gmap string (list Z).
Variable element_type : string.

Lemma element_name_inj i j :
  element_name element_type i = element_name element_type j -> i = j.
Proof. unfold element_name. intros H. apply (inj (String.append element_type)) in H. by apply (inj pretty). Qed.

Lemma next_name_from_spec fuel i :
  (exists j, (i <= j < i + fuel)%nat /\ defs !! element_name element_type j = None) ->
  exists j, next_name_from defs element_type fuel i = element_name element_type j /\
    (i <= j)%nat /\ defs !! element_name element_type j = None /\
    forall k, (i <= k < j)%nat -> is_Some (defs !! element_name element_type k).
Proof.
  revert i. induction fuel as [|fuel IH]; intros i [j [Hj Hfree]]; [lia|].
  simpl. destruct (defs !! element_name element_type i) eqn:Hi.
  - destruct (IH (S i)) as [j' (Heq & Hle & Hfree' & Hbelow)].
    { exists j. split; [|done]. destruct (decide (j = i)) as [->|]; [congruence|lia]. }
    exists j'. split; [done|]. split; [lia|]. split; [done|].
    intros k Hk. destruct (decide (k = i)) as [->|]; [rewrite Hi; by eexists|]. apply Hbelow. lia.
  - exists i. split; [done|]. split; [lia|]. split; [done|]. intros k Hk. lia.
Qed.

(** Pigeonhole: among the names with index [0 .. size defs] one is free. *)
Lemma free_name_exists :
  exists j, (j < S (size defs))%nat /\ defs !! element_name element_type j = None.
Proof.
  set (P := fun j => defs !! element_name element_type j = None).
  destruct (decide (Exists P (seq 0 (S (size defs))))) as [Hex|Hno].
  - apply Exists_exists in Hex as [j [Hin HP]].
    apply elem_of_seq in Hin. exists j. split; [lia|done].
  - exfalso.
    set (names := map (element_name element_type) (seq 0 (S (size defs)))).
    assert (Hnd : NoDup names).
    { apply NoDup_fmap_2; [intros ???; by apply element_name_inj|apply NoDup_seq]. }
    assert (Hsub : list_to_set (C := gset string) names ⊆ dom defs).
    { intros x Hx. apply elem_of_list_to_set in Hx.
      apply list_elem_of_fmap in Hx as [j [-> Hj]].
      apply elem_of_dom. destruct (defs !! element_name element_type j) eqn:E; [by eexists|].
      exfalso. apply Hno. apply Exists_exists. exists j. done. }
    apply subseteq_size in Hsub. rewrite size_list_to_set in Hsub by done.
    rewrite size_dom in Hsub. unfold names in Hsub. rewrite length_map, length_seq in Hsub. lia.
Qed.

End NextName.

(** C10: [_next_available_element_name bg t] is [t] followed by the
    smallest index [i] whose name is not a key of [bg.defines]; in
    particular the returned name belongs to no existing element. *)
Theorem next_available_element_name_spec (bg : bulge_graph) (element_type : string) :
  exists i,
    _next_available_element_name bg element_type = element_name element_type i /\
    defines bg !! _next_available_element_name bg element_type = None /\
    forall j, (j < i)%nat -> is_Some (defines bg !! element_name element_type j).
Proof.
  destruct (free_name_exists (defines bg) element_type) as [j [Hj Hfree]].
  destruct (next_name_from_spec (defines bg) element_type (S (size (defines bg))) 0)
    as [i (Heq & _ & Hfree' & Hbelow)].
  { exists j. split; [lia|done]. }
  exists i. unfold _next_available_element_name. rewrite Heq.
  split; [done|]. split; [done|]. intros k Hk. apply Hbelow. lia.
Qed.

Lemma next_name_fresh (bg : bulge_graph) (element_type : string) :
  defines bg !! _next_available_element_name bg element_type = None.
Proof.
  destruct (free_name_exists (defines bg) element_type) as [j [Hj Hfree]].
  destruct (next_name_from_spec (defines bg) element_type (S (size (defines bg))) 0)
    as [i (Heq & _ & Hfree' & _)].
  { exists j. split; [lia|done]. }
  unfold _next_available_element_name. by rewrite Heq.
Qed.

(** Names with different one-letter type tags differ. *)
Lemma next_name_tag_ne (bg1 bg2 : bulge_graph) (c1 c2 : ascii) :
  c1 <> c2 ->
  _next_available_element_name bg1 (String c1 EmptyString) <>
  _next_available_element_name bg2 (String c2 EmptyString).
Proof.
  intros Hne.
  assert (forall bg c, exists rest, _next_available_element_name bg (String c EmptyString) = String c rest)
    as Hform.
  { intros bg c. unfold _next_available_element_name.
    generalize (S (size (defines bg))) 0%nat. intros fuel.
    induction fuel as [|fuel IH]; intros i; simpl; [by eexists|].
    destruct (defines bg !! _); [apply IH|by eexists]. }
  destruct (Hform bg1 c1) as [r1 ->]. destruct (Hform bg2 c2) as [r2 ->].
  congruence.
Qed.

Lemma nbrs_Some bg x y : y ∈ nbrs bg x -> exists s, edges bg !! x = Some s /\ y ∈ s.
Proof. unfold nbrs. destruct (edges bg !! x) eqn:E; simpl; [eauto|set_solver]. Qed.

Lemma well_formed_check_sound bg : well_formed_check bg -> well_formed bg.
Proof.
  intros Hc. unfold well_formed_check in Hc.
  assert (Hall : forall x y, y ∈ nbrs bg x -> y <> x /\ is_Some (defines bg !! y) /\ x ∈ nbrs bg y).
  { intros x y Hy. apply nbrs_Some in Hy as [s [Hs Hy]]. exact (Hc x s Hs y Hy). }
  split; [|split].
  - intros x y. split; intros H; by apply Hall in H as (_ & _ & ?).
  - intros x y H. by apply Hall in H as (_ & ? & _).
  - intros x H. by apply Hall in H as (? & _ & _).
Qed.

Lemma wf_fresh_not_nbr bg n z :
  well_formed bg -> defines bg !! n = None -> n ∉ nbrs bg z.
Proof. intros (_ & Hcl & _) Hn H. apply Hcl in H. rewrite Hn in H. by destruct H. Qed.

Lemma wf_fresh_no_nbrs bg n w :
  well_formed bg -> defines bg !! n = None -> w ∉ nbrs bg n.
Proof.
  intros Hwf Hn H. pose proof Hwf as (Hsym & _ & _). apply Hsym in H.
  by apply (wf_fresh_not_nbr bg n w).
Qed.

Lemma wf_nbr_defined bg x y : well_formed bg -> y ∈ nbrs bg x -> is_Some (defines bg !! y).
Proof. intros (_ & Hcl & _). apply Hcl. Qed.

(** Neighbour sets after each primitive. *)
Lemma nbrs_put_define bg k v z : nbrs (put_define bg k v) z = nbrs bg z.
Proof. done. Qed.

Lemma elem_of_nbrs_add_edge bg a b z w :
  w ∈ nbrs (_add_edge bg a b) z <->
  (z = a /\ w = b) \/ (z = b /\ w = a) \/ w ∈ nbrs bg z.
Proof.
  unfold _add_edge, nbrs, add_nbr; simpl.
  rewrite !lookup_insert. repeat case_decide; subst; simpl; set_solver.
Qed.

Lemma elem_of_nbrs_remove_vertex bg v z w :
  w ∈ nbrs (remove_vertex bg v) z <-> z <> v /\ w <> v /\ w ∈ nbrs bg z.
Proof.
  unfold remove_vertex, nbrs; simpl. rewrite lookup_fmap, lookup_delete.
  case_decide; subst; simpl; [set_solver|].
  destruct (edges bg !! z); simpl; set_solver.
Qed.

Lemma elem_of_nbrs_relabel bg old_name new_name bg' z w :
  relabel_node bg old_name new_name = Ok bg' ->
  w ∈ nbrs bg' z <->
  exists w0, w = rename old_name new_name w0 /\
    w0 ∈ (if decide (z = new_name) then nbrs bg old_name
          else if decide (z = old_name) then ∅ else nbrs bg z).
Proof.
  unfold relabel_node, get_define. destruct (defines bg !! old_name); simpl; [|done].
  intros [= <-]. unfold nbrs at 1; simpl. rewrite lookup_fmap.
  destruct (decide (z = new_name)) as [->|Hn].
  - rewrite lookup_insert_eq. simpl. rewrite elem_of_map. done.
  - rewrite lookup_insert_ne by congruence.
    destruct (decide (z = old_name)) as [->|Ho].
    + rewrite lookup_delete_eq. simpl. set_solver.
    + rewrite lookup_delete_ne by congruence.
      unfold nbrs. destruct (edges bg !! z); simpl; try rewrite elem_of_map; set_solver.
Qed.

Lemma defines_relabel bg old_name new_name bg' :
  relabel_node bg old_name new_name = Ok bg' ->
  exists d, defines bg !! old_name = Some d /\
    defines bg' = <[new_name := d]> (delete old_name (defines bg)).
Proof.
  unfold relabel_node, get_define. destruct (defines bg !! old_name); simpl; [|done].
  intros [= <-]. eauto.
Qed.

Lemma elem_of_nbrs_remove_edge bg a b bg' z w :
  _remove_edge bg a b = Ok bg' ->
  w ∈ nbrs bg' z <-> w ∈ nbrs bg z /\ ~ ((z = a /\ w = b) \/ (z = b /\ w = a)).
Proof.
  unfold _remove_edge. case_decide as Hab; [|done]. case_decide as Hba; [|done].
  intros [= <-]. unfold nbrs at 1; simpl.
  rewrite !lookup_insert.
  repeat case_decide; subst; simpl in *; unfold nbrs in *; set_solver.
Qed.

Lemma defines_remove_edge bg a b bg' :
  _remove_edge bg a b = Ok bg' -> defines bg' = defines bg.
Proof.
  unfold _remove_edge. case_decide; [|done]. case_decide; [|done]. by intros [= <-].
Qed.

(** ** The primitives keep a graph well formed *)

Lemma wf_put_define bg k v : well_formed bg -> well_formed (put_define bg k v).
Proof.
  intros (Hsym & Hcl & Hirr). split; [|split]; try done.
  intros x y Hy. simpl. rewrite lookup_insert_is_Some'. right. by apply (Hcl x).
Qed.

Lemma wf_add_edge bg a b :
  well_formed bg -> a <> b -> is_Some (defines bg !! a) -> is_Some (defines bg !! b) ->
  well_formed (_add_edge bg a b).
Proof.
  intros (Hsym & Hcl & Hirr) Hab Ha Hb. split; [|split].
  - intros x y. rewrite !elem_of_nbrs_add_edge, (Hsym x y). naive_solver.
  - intros x y. rewrite elem_of_nbrs_add_edge. simpl.
    intros [[-> ->]|[[-> ->]|Hy]]; [done|done|]. by apply (Hcl x).
  - intros x. rewrite elem_of_nbrs_add_edge. specialize (Hirr x). naive_solver.
Qed.

Lemma wf_remove_vertex bg v : well_formed bg -> well_formed (remove_vertex bg v).
Proof.
  intros (Hsym & Hcl & Hirr). split; [|split].
  - intros x y. rewrite !elem_of_nbrs_remove_vertex, (Hsym x y). naive_solver.
  - intros x y. rewrite elem_of_nbrs_remove_vertex. intros (_ & Hy & H).
    simpl. rewrite lookup_delete_ne by congruence. by apply (Hcl x).
  - intros x. rewrite elem_of_nbrs_remove_vertex. specialize (Hirr x). naive_solver.
Qed.

Lemma wf_remove_edge bg a b bg' :
  well_formed bg -> _remove_edge bg a b = Ok bg' -> well_formed bg'.
Proof.
  intros (Hsym & Hcl & Hirr) Hr. pose proof (defines_remove_edge _ _ _ _ Hr) as Hd.
  split; [|split].
  - intros x y. rewrite !(elem_of_nbrs_remove_edge _ _ _ _ _ _ Hr), (Hsym x y). naive_solver.
  - intros x y. rewrite (elem_of_nbrs_remove_edge _ _ _ _ _ _ Hr), Hd.
    intros [Hy _]. by apply (Hcl x).
  - intros x. rewrite (elem_of_nbrs_remove_edge _ _ _ _ _ _ Hr). specialize (Hirr x). naive_solver.
Qed.

(** With a fresh new name the relabeled edges are the old ones with both
    ends renamed. *)
Lemma relabel_nbrs_char bg old_name new_name bg' z w :
  well_formed bg -> defines bg !! new_name = None ->
  relabel_node bg old_name new_name = Ok bg' ->
  w ∈ nbrs bg' z <->
  exists z0 w0, z = rename old_name new_name z0 /\ w = rename old_name new_name w0 /\
                w0 ∈ nbrs bg z0.
Proof.
  intros Hwf Hnew Hr.
  pose proof (defines_relabel _ _ _ _ Hr) as [d [Hold _]].
  assert (Hne : old_name <> new_name) by congruence.
  rewrite (elem_of_nbrs_relabel _ _ _ _ _ _ Hr).
  pose proof (fun w => wf_fresh_no_nbrs bg new_name w Hwf Hnew) as Hno.
  unfold rename. split.
  - intros [w0 [-> Hw0]]. destruct (decide (z = new_name)) as [->|Hzn].
    + exists old_name, w0. rewrite decide_True by done. done.
    + destruct (decide (z = old_name)); [set_solver|].
      exists z, w0. rewrite decide_False by done. done.
  - intros (z0 & w0 & -> & -> & Hw0). exists w0. split; [done|].
    destruct (decide (z0 = old_name)) as [->|Hzo].
    + rewrite decide_True by done. done.
    + destruct (decide (z0 = new_name)) as [->|]; [by apply Hno in Hw0|].
      rewrite !decide_False by done. done.
Qed.

Lemma wf_relabel bg old_name new_name bg' :
  well_formed bg -> defines bg !! new_name = None ->
  relabel_node bg old_name new_name = Ok bg' -> well_formed bg'.
Proof.
  intros Hwf Hnew Hr. pose proof Hwf as (Hsym & Hcl & Hirr).
  pose proof (defines_relabel _ _ _ _ Hr) as [d [Hold Hdefs]].
  assert (Hne : old_name <> new_name) by congruence.
  pose proof (fun w => wf_fresh_no_nbrs bg new_name w Hwf Hnew) as Hno.
  pose proof (fun z => wf_fresh_not_nbr bg new_name z Hwf Hnew) as Hnn.
  split; [|split].
  - intros x y. rewrite !(relabel_nbrs_char _ _ _ _ _ _ Hwf Hnew Hr).
    split; intros (z0 & w0 & Hx & Hy & H); exists w0, z0; (split; [done|]); (split; [done|]); by apply Hsym.
  - intros x y. rewrite (relabel_nbrs_char _ _ _ _ _ _ Hwf Hnew Hr).
    intros (z0 & w0 & _ & -> & H). rewrite Hdefs. unfold rename.
    destruct (decide (w0 = old_name)) as [->|Hw].
    + by rewrite lookup_insert_eq.
    + rewrite lookup_insert_ne by (intros ->; by apply (Hnn z0)).
      rewrite lookup_delete_ne by congruence. by apply (Hcl z0).
  - intros x. rewrite (relabel_nbrs_char _ _ _ _ _ _ Hwf Hnew Hr).
    intros (z0 & w0 & Hz & Hw & H). unfold rename in Hz, Hw.
    destruct (decide (z0 = new_name)) as [->|]; [by apply (Hno w0)|].
    destruct (decide (w0 = new_name)) as [->|]; [by apply (Hnn z0)|].
    destruct (decide (z0 = old_name)), (decide (w0 = old_name)); subst; try congruence;
      by apply (Hirr z0).
Qed.

(** ** The splitting operations keep a graph well formed *)

Lemma bind_Ok {A B} (m : result A) (f : A -> result B) b :
  bind m f = Ok b -> exists a, m = Ok a /\ f a = Ok b.
Proof. destruct m; simpl; [eauto|done]. Qed.

Ltac inv_bind H :=
  repeat match type of H with
  | bind _ _ = Ok _ =>
      let a := fresh "a" in let Ha := fresh "Hbind" in
      apply bind_Ok in H as [a [Ha H]]
  end.

Lemma get_node_defined bg pos k :
  get_node_from_residue_num bg pos = Ok k -> is_Some (defines bg !! k).
Proof.
  unfold get_node_from_residue_num.
  destruct (list_find _ _) as [[i [k' d]]|] eqn:E; [|done]. intros [= <-].
  apply list_find_Some in E as (Hi & _ & _).
  exists d. apply elem_of_map_to_list. by eapply list_elem_of_lookup_2.
Qed.

Lemma nth_err_Ok {A} (l : list A) i x : nth_err l i = Ok x -> l !! i = Some x.
Proof. unfold nth_err. destruct (l !! i); congruence. Qed.

Lemma get_define_Ok bg k d : get_define bg k = Ok d -> defines bg !! k = Some d.
Proof. unfold get_define. destruct (defines bg !! k); congruence. Qed.

Lemma nth_err_elem {A} (l : list A) i x : nth_err l i = Ok x -> x ∈ l.
Proof.
  unfold nth_err. destruct (l !! i) eqn:E; [|done]. intros [= <-].
  by eapply list_elem_of_lookup_2.
Qed.

Lemma connections_nbrs bg e x : x ∈ connections bg e -> x ∈ nbrs bg e.
Proof.
  unfold connections. intros Hx.
  rewrite (merge_sort_Permutation (first_pos_le bg)) in Hx.
  by apply elem_of_elements in Hx.
Qed.

Lemma defined_put_define bg k v x :
  is_Some (defines bg !! x) -> is_Some (defines (put_define bg k v) !! x).
Proof. simpl. rewrite lookup_insert_is_Some'. by right. Qed.

Lemma defined_put_define_self bg k v : is_Some (defines (put_define bg k v) !! k).
Proof. simpl. by rewrite lookup_insert_eq. Qed.

Lemma defined_fresh_ne bg x n :
  is_Some (defines bg !! x) -> defines bg !! n = None -> x <> n.
Proof. intros [d Hd] Hn ->. congruence. Qed.

Lemma fresh_put_define bg k v n :
  defines bg !! n = None -> k <> n -> defines (put_define bg k v) !! n = None.
Proof. intros Hn Hk. simpl. by rewrite lookup_insert_ne. Qed.

Lemma next_name_t_f bg1 bg2 :
  _next_available_element_name bg1 "t" <> _next_available_element_name bg2 "f".
Proof. by apply next_name_tag_ne. Qed.
Lemma next_name_m_t bg1 bg2 :
  _next_available_element_name bg1 "m" <> _next_available_element_name bg2 "t".
Proof. by apply next_name_tag_ne. Qed.
Lemma next_name_m_f bg1 bg2 :
  _next_available_element_name bg1 "m" <> _next_available_element_name bg2 "f".
Proof. by apply next_name_tag_ne. Qed.
Lemma next_name_s_m bg1 bg2 :
  _next_available_element_name bg1 "s" <> _next_available_element_name bg2 "m".
Proof. by apply next_name_tag_ne. Qed.

Lemma wf_split_between_elements bg splitpoint el er bg' :
  well_formed bg -> _split_between_elements bg splitpoint el er = Ok bg' -> well_formed bg'.
Proof.
  intros Hwf H. unfold _split_between_elements in H.
  destruct (tag_in el "mh").
  { inv_bind H. assert (well_formed a) by (eapply wf_relabel; [done|apply next_name_fresh|done]).
    destruct (negb _); [by eapply wf_remove_edge|by injection H as <-]. }
  destruct (tag_in er "mh").
  { inv_bind H. assert (well_formed a) by (eapply wf_relabel; [done|apply next_name_fresh|done]).
    destruct (negb _); [by eapply wf_remove_edge|by injection H as <-]. }
  inv_bind H. destruct (decide _); [done|]. inv_bind H.
  destruct a0 as [c|]; [|done].
  destruct (tag_is c "m"%char); [injection H as <-; by apply wf_remove_vertex|].
  inv_bind H. eapply wf_relabel; [done|apply next_name_fresh|done].
Qed.

Ltac solve_defined := simpl; rewrite ?lookup_insert_is_Some'; naive_solver.
Ltac solve_ne :=
  first [ by eapply defined_fresh_ne | by eapply not_eq_sym, defined_fresh_ne
        | by apply next_name_tag_ne | by apply not_eq_sym, next_name_tag_ne ].
Ltac solve_wf :=
  repeat first [ assumption | apply wf_put_define | apply wf_add_edge; [| solve_ne | solve_defined | solve_defined] ].

Lemma wf_split_inside_loop bg splitpoint element bg' :
  well_formed bg -> _split_inside_loop bg splitpoint element = Ok bg' -> well_formed bg'.
Proof.
  intros Hwf H. unfold _split_inside_loop in H.
  destruct (tag_in element "hm"); [|done]. inv_bind H.
  destruct a as [|from_ [|to_ [|]]]; try done. inv_bind H. injection H as <-.
  pose proof (get_node_defined _ _ _ Hbind0) as Hl.
  pose proof (get_node_defined _ _ _ Hbind1) as Hr.
  pose proof (next_name_fresh bg "t") as F3. pose proof (next_name_fresh bg "f") as F5.
  pose proof (next_name_t_f bg bg) as N35.
  set (next3 := _next_available_element_name bg "t") in *.
  set (next5 := _next_available_element_name bg "f") in *.
  apply wf_remove_vertex. solve_wf.
Qed.

Lemma wf_split_interior_loop_at_side bg splitpoint strand other_strand stems bg' :
  well_formed bg -> (forall s, s ∈ stems -> is_Some (defines bg !! s)) ->
  _split_interior_loop_at_side bg splitpoint strand other_strand stems = Ok bg' ->
  well_formed bg'.
Proof.
  intros Hwf Hstems H. unfold _split_interior_loop_at_side in H. inv_bind H.
  injection H as <-.
  pose proof (Hstems _ (nth_err_elem _ _ _ Hbind)) as H0.
  pose proof (Hstems _ (nth_err_elem _ _ _ Hbind0)) as H1.
  pose proof (next_name_fresh bg "m") as FM. pose proof (next_name_fresh bg "t") as FA.
  pose proof (next_name_fresh bg "f") as FB.
  pose proof (next_name_m_t bg bg) as NMA. pose proof (next_name_m_f bg bg) as NMB.
  pose proof (next_name_t_f bg bg) as NAB.
  set (nextML := _next_available_element_name bg "m") in *.
  set (nextA := _next_available_element_name bg "t") in *.
  set (nextB := _next_available_element_name bg "f") in *.
  repeat case_decide; solve_wf.
Qed.

Lemma wf_split_interior_loop bg splitpoint el er bg' :
  well_formed bg -> _split_interior_loop bg splitpoint el er = Ok bg' -> well_formed bg'.
Proof.
  intros Hwf H. unfold _split_interior_loop in H. inv_bind H. injection H as <-.
  apply wf_remove_vertex.
  assert (Hc : forall s, s ∈ connections bg a -> is_Some (defines bg !! s)).
  { intros s Hs. apply connections_nbrs in Hs. by eapply wf_nbr_defined. }
  pose proof (Hc _ (nth_err_elem _ _ _ Hbind0)) as H0.
  pose proof (Hc _ (nth_err_elem _ _ _ Hbind2)) as H1.
  repeat case_decide; try done;
    (eapply wf_split_interior_loop_at_side; [done| |done]; set_solver).
Qed.

(** *** The stem split *)

Lemma partition_edges_spec bg define1 define2 es edges1 edges2 :
  partition_edges bg define1 define2 es = Ok (edges1, edges2) ->
  (forall e, e ∈ edges1 -> e ∈ es /\ classify_edge bg define1 define2 e = Ok true) /\
  (forall e, e ∈ edges2 -> e ∈ es /\ classify_edge bg define1 define2 e = Ok false) /\
  (forall e, e ∈ es -> e ∈ edges1 \/ e ∈ edges2).
Proof.
  revert edges1 edges2. induction es as [|e es IH]; intros edges1 edges2 H; simpl in H.
  - injection H as <- <-. set_solver.
  - inv_bind H. destruct a0 as [l1 l2].
    destruct (IH l1 l2 Hbind0) as (H1 & H2 & H3).
    destruct a; simpl in H; injection H as <- <-; (split; [|split]); intros e' He'.
    + apply elem_of_cons in He' as [->|He']; [split; [left|done]|].
      destruct (H1 e' He') as [? ?]. split; [by right|done].
    + destruct (H2 e' He') as [? ?]. split; [by right|done].
    + apply elem_of_cons in He' as [->|He']; [left; left|].
      destruct (H3 e' He'); [left; by right|by right].
    + destruct (H1 e' He') as [? ?]. split; [by right|done].
    + apply elem_of_cons in He' as [->|He']; [split; [left|done]|].
      destruct (H2 e' He') as [? ?]. split; [by right|done].
    + apply elem_of_cons in He' as [->|He']; [right; left|].
      destruct (H3 e' He'); [by left|right; by right].
Qed.

Lemma defines_add_all bg es x : defines (add_all bg es x) = defines bg.
Proof. revert bg. induction es as [|e es IH]; intros bg; simpl; [done|]. by rewrite IH. Qed.

Lemma elem_of_nbrs_add_all bg es x z w :
  w ∈ nbrs (add_all bg es x) z <-> w ∈ nbrs bg z \/ (w = x /\ z ∈ es).
Proof.
  revert bg. induction es as [|e es IH]; intros bg; simpl.
  - set_solver.
  - rewrite IH. unfold nbrs, add_nbr; simpl. rewrite lookup_insert.
    case_decide; subst; simpl; set_solver.
Qed.

Lemma elem_of_nbrs_stem_rewire g S1 S2 M l1 l2 z w :
  let g' := add_all (add_all g l1 S1) l2 S2 in
  w ∈ nbrs (set_edges g' (<[M := {[S1; S2]}]> (<[S2 := list_to_set (l2 ++ [M])]>
                (<[S1 := list_to_set (l1 ++ [M])]> (edges g'))))) z <->
  (z = M /\ (w = S1 \/ w = S2)) \/
  (z <> M /\ z = S2 /\ (w ∈ l2 \/ w = M)) \/
  (z <> M /\ z <> S2 /\ z = S1 /\ (w ∈ l1 \/ w = M)) \/
  (z <> M /\ z <> S2 /\ z <> S1 /\
     (w ∈ nbrs g z \/ (w = S1 /\ z ∈ l1) \/ (w = S2 /\ z ∈ l2))).
Proof.
  intros g'. unfold nbrs at 1; simpl. rewrite !lookup_insert.
  repeat case_decide; subst; simpl;
    rewrite ?elem_of_list_to_set, ?elem_of_app, ?list_elem_of_singleton; try set_solver.
  unfold g'. fold (nbrs (add_all (add_all g l1 S1) l2 S2) z).
  rewrite !elem_of_nbrs_add_all. naive_solver.
Qed.

Lemma wf_split_inside_stem bg splitpoint element bg' :
  well_formed bg -> _split_inside_stem bg splitpoint element = Ok bg' -> well_formed bg'.
Proof.
  intros Hwf H. unfold _split_inside_stem in H. inv_bind H.
  case_decide; [by injection H as <-|]. inv_bind H. injection H as <-.
  destruct a5 as [edges1 edges2]. simpl in *.
  apply partition_edges_spec in Hbind5 as (HP1 & HP2 & _).
  pose proof Hwf as (_ & _ & Hirr).
  set (bg1 := remove_vertex bg element) in *.
  assert (W1 : well_formed bg1) by by apply wf_remove_vertex.
  assert (HE : forall e, e ∈ edges1 \/ e ∈ edges2 -> is_Some (defines bg1 !! e)).
  { intros e He. assert (Hn : e ∈ nbrs bg element).
    { destruct He as [He|He]; [apply HP1 in He as [He _]|apply HP2 in He as [He _]];
        by apply elem_of_elements in He. }
    simpl. rewrite lookup_delete_ne.
    - by eapply wf_nbr_defined.
    - intros Heq. rewrite Heq in Hn. by apply (Hirr e). }
  set (S1 := _next_available_element_name bg1 "s") in *.
  pose proof (next_name_fresh bg1 "s") as FS1. fold S1 in FS1.
  set (bg2 := put_define bg1 S1 _) in *.
  set (M := _next_available_element_name bg2 "m") in *.
  pose proof (next_name_fresh bg2 "m") as FM2. fold M in FM2.
  set (bg3 := put_define bg2 M []) in *.
  set (S2 := _next_available_element_name bg3 "s") in *.
  pose proof (next_name_fresh bg3 "s") as FS3. fold S2 in FS3.
  assert (NS1M : S1 <> M) by apply next_name_s_m.
  assert (NS2M : S2 <> M) by apply next_name_s_m.
  assert (NS12 : S1 <> S2).
  { intros Heq. unfold bg3, bg2 in FS3. simpl in FS3. rewrite <-Heq in FS3.
    rewrite lookup_insert_ne in FS3 by done. by rewrite lookup_insert_eq in FS3. }
  assert (FM : defines bg1 !! M = None).
  { unfold bg2 in FM2. simpl in FM2. by rewrite lookup_insert_ne in FM2. }
  assert (FS2 : defines bg1 !! S2 = None).
  { unfold bg3, bg2 in FS3. simpl in FS3. by rewrite !lookup_insert_ne in FS3. }
  assert (Hnot : forall n, defines bg1 !! n = None -> forall q, (n ∉ nbrs bg1 q) /\ q ∉ nbrs bg1 n).
  { intros n Hn q. split; [by apply wf_fresh_not_nbr|by apply wf_fresh_no_nbrs]. }
  assert (Hdist : forall e, e ∈ edges1 \/ e ∈ edges2 -> e <> S1 /\ e <> S2 /\ e <> M).
  { intros e He. specialize (HE e He). split; [|split]; by eapply defined_fresh_ne. }
  pose proof (Hnot _ FS1) as X1. pose proof (Hnot _ FS2) as X2. pose proof (Hnot _ FM) as XM.
  pose proof W1 as (Hsym1 & Hcl1 & Hirr1).
  assert (N3 : forall z, nbrs bg3 z = nbrs bg1 z).
  { intros z. unfold bg3, bg2. by rewrite !nbrs_put_define. }
  split; [|split].
  - intros x y. rewrite !elem_of_nbrs_stem_rewire. rewrite !nbrs_put_define, !N3.
    specialize (Hsym1 x y).
    destruct (X1 x) as [X1x X1x']. destruct (X2 x) as [X2x X2x']. destruct (XM x) as [XMx XMx'].
    destruct (X1 y) as [X1y X1y']. destruct (X2 y) as [X2y X2y']. destruct (XM y) as [XMy XMy'].
    assert (Hx : x ∈ edges1 \/ x ∈ edges2 -> x <> S1 /\ x <> S2 /\ x <> M) by apply Hdist.
    assert (Hy : y ∈ edges1 \/ y ∈ edges2 -> y <> S1 /\ y <> S2 /\ y <> M) by apply Hdist.
    assert (M <> S1) by congruence. assert (M <> S2) by congruence. assert (S2 <> S1) by congruence.
    (destruct (decide (x = M)) as [->|?];
       [|destruct (decide (x = S2)) as [->|?]; [|destruct (decide (x = S1)) as [->|?]]]);
    (destruct (decide (y = M)) as [->|?];
       [|destruct (decide (y = S2)) as [->|?]; [|destruct (decide (y = S1)) as [->|?]]]);
    try congruence; try tauto.
  - intros x y. rewrite elem_of_nbrs_stem_rewire. rewrite !nbrs_put_define.
    simpl. rewrite defines_add_all, defines_add_all. simpl.
    rewrite !lookup_insert_is_Some'.
    intros Hxy. destruct Hxy as [[_ [->| ->]]|[[_ [_ [Hy| ->]]]|[[_ [_ [_ [Hy| ->]]]]|(_ & _ & _ & [Hy|[[-> _]|[-> _]]])]]];
      try tauto.
    + right; right; right. apply HE. by right.
    + right; right; right. apply HE. by left.
    + right; right; right. by eapply Hcl1.
  - intros x. rewrite elem_of_nbrs_stem_rewire. rewrite !nbrs_put_define.
    specialize (Hirr1 x). pose proof (Hdist x). naive_solver.
Qed.

Lemma wf_cofold_step bg splitpoint bg' :
  well_formed bg -> cofold_step bg splitpoint = Ok bg' -> well_formed bg'.
Proof.
  intros Hwf H. unfold cofold_step in H. inv_bind H.
  destruct (tag_in a "ft" || tag_in a0 "ft").
  { destruct (_ && _); [by injection H as <-|].
    destruct (_ && _); [by injection H as <-|done]. }
  destruct (tag_is a "i"%char || tag_is a0 "i"%char); [by eapply wf_split_interior_loop|].
  destruct (negb _); [by eapply wf_split_between_elements|].
  destruct (tag_is a "s"%char); [by eapply wf_split_inside_stem|by eapply wf_split_inside_loop].
Qed.

Lemma wf_cofold_loop bg cutpoints bg' :
  well_formed bg -> cofold_loop bg cutpoints = Ok bg' -> well_formed bg'.
Proof.
  revert bg. induction cutpoints as [|sp rest IH]; intros bg Hwf H; simpl in H.
  - by injection H as <-.
  - inv_bind H. eapply IH; [|done]. by eapply wf_cofold_step.
Qed.

Lemma wf_split_at_cofold_cutpoints bg cutpoints bg' :
  well_formed bg -> split_at_cofold_cutpoints bg cutpoints = Ok bg' -> well_formed bg'.
Proof.
  intros Hwf H. unfold split_at_cofold_cutpoints in H. inv_bind H.
  destruct a0; [injection H as <-|done]. by eapply wf_cofold_loop.
Qed.

(** ** The traversal of [_is_connected] *)

Lemma elem_of_rev {A} (x : A) (l : list A) : x ∈ rev l <-> x ∈ l.
Proof. rewrite !list_elem_of_In. split; [apply in_rev|apply in_rev]. Qed.

Lemma dfs_correct bg (P : string -> Prop) fuel known pending res :
  dfs bg fuel known pending = Some res ->
  (forall x y, P x -> y ∈ nbrs bg x -> P y) ->
  (forall x, x ∈ known -> forall y, y ∈ nbrs bg x -> y ∈ known \/ y ∈ pending) ->
  (forall x, x ∈ known \/ x ∈ pending -> P x) ->
  known ⊆ res /\ (forall x, x ∈ res -> forall y, y ∈ nbrs bg x -> y ∈ res) /\
  (forall x, x ∈ res -> P x).
Proof.
  revert known pending. induction fuel as [|fuel IH]; intros known pending H HP Hcl Hin;
    simpl in H; [done|].
  destruct pending as [|next rest].
  { injection H as <-. split; [done|split]; [|naive_solver].
    intros x Hx y Hy. destruct (Hcl x Hx y Hy) as [?|?%elem_of_nil]; done. }
  case_decide.
  - destruct (IH _ _ H HP) as (? & ? & ?); [| |split; [done|done]].
    + intros x Hx y Hy. destruct (Hcl x Hx y Hy) as [?|[->|?]%elem_of_cons]; auto.
    + intros x [?|?]; apply Hin; [by left|right; by right].
  - destruct (IH _ _ H HP) as (? & ? & ?); [| |split; [set_solver|done]].
    + intros x Hx y Hy. rewrite elem_of_app, elem_of_rev, elem_of_elements.
      apply elem_of_union in Hx as [->%elem_of_singleton|Hx]; [by right; left|].
      destruct (Hcl x Hx y Hy) as [?|[->|?]%elem_of_cons]; [left; set_solver|left; set_solver|].
      right; by right.
    + intros x [Hx|Hx].
      * apply elem_of_union in Hx as [->%elem_of_singleton|Hx]; apply Hin; [right; left|by left].
      * rewrite elem_of_app, elem_of_rev, elem_of_elements in Hx. destruct Hx as [Hx|Hx].
        -- apply (HP next); [apply Hin; right; left|done].
        -- apply Hin; right; by right.
Qed.

Lemma list_sum_perm (l1 l2 : list nat) : l1 ≡ₚ l2 -> list_sum l1 = list_sum l2.
Proof. induction 1; simpl; lia. Qed.

Lemma unvisited_weight_visit bg known next :
  next ∉ known ->
  (unvisited_weight bg ({[next]} ∪ known) + size (nbrs bg next) = unvisited_weight bg known)%nat.
Proof.
  intros Hn. unfold unvisited_weight.
  destruct (decide (next ∈ dom (edges bg))) as [Hd|Hd].
  - assert (Heq : dom (edges bg) ∖ known = {[next]} ∪ (dom (edges bg) ∖ ({[next]} ∪ known))).
    { apply set_eq. intros z.
      rewrite elem_of_union, !elem_of_difference, elem_of_union, elem_of_singleton.
      destruct (decide (z = next)); subst; tauto. }
    rewrite Heq.
    set (Y := dom (edges bg) ∖ ({[next]} ∪ known)).
    rewrite (list_sum_perm (map (fun x => size (nbrs bg x)) (elements ({[next]} ∪ Y)))
                           (map (fun x => size (nbrs bg x)) (next :: elements Y))).
    2:{ apply Permutation_map, elements_union_singleton. unfold Y.
        rewrite elem_of_difference, elem_of_union, elem_of_singleton; tauto. }
    simpl. lia.
  - assert (Heq : dom (edges bg) ∖ ({[next]} ∪ known) = dom (edges bg) ∖ known).
    { apply set_eq. intros z. rewrite !elem_of_difference, elem_of_union, elem_of_singleton.
      destruct (decide (z = next)); subst; tauto. }
    rewrite Heq. unfold nbrs. apply not_elem_of_dom in Hd. rewrite Hd. cbn [default].
    rewrite size_empty. lia.
Qed.

Lemma dfs_terminates bg fuel known pending :
  (length pending + unvisited_weight bg known < fuel)%nat ->
  is_Some (dfs bg fuel known pending).
Proof.
  revert known pending. induction fuel as [|fuel IH]; intros known pending Hf; [lia|].
  simpl. destruct pending as [|next rest]; [by eexists|].
  case_decide.
  - apply IH. simpl in Hf. lia.
  - apply IH. pose proof (unvisited_weight_visit bg known next ltac:(done)).
    rewrite length_app, length_rev. simpl in Hf.
    assert (length (elements (nbrs bg next)) = size (nbrs bg next)) by done. lia.
Qed.

Lemma dfs_fuel_enough bg known pending : is_Some (dfs bg (dfs_fuel bg known pending) known pending).
Proof. apply dfs_terminates. unfold dfs_fuel. lia. Qed.

Lemma is_connected_None bg : first_element bg = None -> _is_connected bg = Err IndexError.
Proof. unfold _is_connected. by intros ->. Qed.

Lemma is_connected_Some bg start :
  first_element bg = Some start ->
  exists b, _is_connected bg = Ok b /\
    (b = true <-> forall z, rtc (adj bg) start z <-> z ∈ dom (defines bg)).
Proof.
  unfold _is_connected. intros ->.
  set (pending := rev (elements (nbrs bg start))).
  destruct (dfs_fuel_enough bg {[start]} pending) as [res Hres]. rewrite Hres.
  eexists; split; [reflexivity|].
  destruct (dfs_correct bg (rtc (adj bg) start) _ _ _ _ Hres) as (Hsub & Hcl & HP).
  - intros x y Hx Hy. eapply rtc_r; [exact Hx|exact Hy].
  - intros x ->%elem_of_singleton y Hy. right. unfold pending.
    by rewrite elem_of_rev, elem_of_elements.
  - intros x [->%elem_of_singleton|Hx]; [done|].
    unfold pending in Hx. rewrite elem_of_rev, elem_of_elements in Hx.
    by apply rtc_once.
  - assert (Hres_reach : forall z, z ∈ res <-> rtc (adj bg) start z).
    { intros z. split; [apply HP|]. intros Hz.
      assert (Hstart : start ∈ res) by (apply Hsub; by apply elem_of_singleton).
      assert (Hgen : forall x y, rtc (adj bg) x y -> x ∈ res -> y ∈ res).
      { intros x y Hxy. induction Hxy as [x|x y w Hxy _ IH]; [done|].
        intros Hx. apply IH. by eapply Hcl. }
      by apply (Hgen start). }
    rewrite bool_decide_eq_true. split.
    + intros -> z. by rewrite <-Hres_reach.
    + intros Hz. apply set_eq. intros z. by rewrite Hres_reach.
Qed.

(** ** The raises of [GraphConstructionError] on concrete graphs *)

(** C1: in [g_iloop_cut3] the element before the cut at 3 is the 't' end
    [t0] and the element after it is the stem [s1], so the split is already
    represented and the graph needs no change (it passes the final check
    unchanged).  The guard [element_left[0]=='t' and element_left[0]!='t']
    is never true, so [split_at_cofold_cutpoints] goes on to the raise, and
    that raise is a [NameError] for the unimported name. *)
Lemma cofold_cut_at_terminal_end_bug :
  get_node_from_residue_num g_iloop_cut3 3 = Ok "t0" /\
  get_node_from_residue_num g_iloop_cut3 4 = Ok "s1" /\
  split_at_cofold_cutpoints g_iloop_cut3 [] = Ok g_iloop_cut3 /\
  cofold_step g_iloop_cut3 3 = Err (NameError "GraphConstructionError") /\
  split_at_cofold_cutpoints g_iloop_cut3 [3] = Err (NameError "GraphConstructionError").
Proof. repeat split; vm_compute; reflexivity. Qed.

(** C2: cutting [g_two_hairpins] at 7 turns [m0] into a 't' end with no
    edge to [s1]; the loop's graph is not connected, and the raise meant to
    report it is a [NameError] for the unimported name. *)
Lemma split_at_cofold_cutpoints_not_connected_bug :
  cofold_loop g_two_hairpins [7] =
    Ok (match cofold_loop g_two_hairpins [7] with Ok g => g | Err _ => g_two_hairpins end) /\
  _is_connected (match cofold_loop g_two_hairpins [7] with Ok g => g | Err _ => g_two_hairpins end)
    = Ok false /\
  split_at_cofold_cutpoints g_two_hairpins [7] = Err (NameError "GraphConstructionError").
Proof. repeat split; vm_compute; reflexivity. Qed.

(** C5: in [g_no_link] the stems [s0] and [s1] flank the cut at 6 and share
    no neighbour; the raise meant to report the missing connection is a
    [NameError] for the unimported name. *)
Lemma split_between_stems_no_link_bug :
  get_node_from_residue_num g_no_link 6 = Ok "s0" /\
  get_node_from_residue_num g_no_link 7 = Ok "s1" /\
  nbrs g_no_link "s0" ∩ nbrs g_no_link "s1" = ∅ /\
  _split_between_elements g_no_link 6 "s0" "s1" = Err (NameError "GraphConstructionError") /\
  split_at_cofold_cutpoints g_no_link [6] = Err (NameError "GraphConstructionError").
Proof.
  split; [vm_compute; reflexivity|]. split; [vm_compute; reflexivity|].
  split; [apply (bool_decide_unpack _); vm_compute; reflexivity|].
  split; vm_compute; reflexivity.
Qed.

(** ** The final connectivity check *)

(** An error of the cutpoint loop is passed on unchanged.  When the loop
    succeeds, [split_at_cofold_cutpoints] fails exactly when the elements
    reachable along [edges] from the first element are not exactly the
    element names, and that failure is the [NameError] of the unimported
    [GraphConstructionError]; otherwise it returns the loop's graph, which
    the connectivity check leaves unchanged. *)
Theorem split_at_cofold_cutpoints_connectivity bg cutpoints :
  (forall e, cofold_loop bg cutpoints = Err e -> split_at_cofold_cutpoints bg cutpoints = Err e) /\
  (forall bg', cofold_loop bg cutpoints = Ok bg' ->
     (split_at_cofold_cutpoints bg cutpoints = Err (NameError "GraphConstructionError") <->
      exists start, first_element bg' = Some start /\
        ~ (forall z, rtc (adj bg') start z <-> z ∈ dom (defines bg'))) /\
     (forall bg'', split_at_cofold_cutpoints bg cutpoints = Ok bg'' <->
      bg'' = bg' /\ exists start, first_element bg' = Some start /\
        (forall z, rtc (adj bg') start z <-> z ∈ dom (defines bg')))).
Proof.
  unfold split_at_cofold_cutpoints. split; [by intros e ->|].
  intros g ->. simpl.
  destruct (first_element g) as [start|] eqn:Hf.
  - destruct (is_connected_Some g start Hf) as (b & -> & Hiff). simpl.
    split; [split|intros bg''; split].
    + destruct b; [done|]. intros _. exists start. split; [done|].
      intros Hc. by apply Hiff in Hc.
    + intros (start' & Hf' & Hnc). injection Hf' as <-.
      destruct b; [|done]. exfalso. apply Hnc. by apply Hiff.
    + destruct b; [|done]. intros [= <-]. split; [done|]. exists start. split; [done|].
      by apply Hiff.
    + intros (-> & start' & Hf' & Hc). injection Hf' as <-.
      destruct b; [done|]. exfalso. by apply Hiff in Hc.
  - rewrite is_connected_None by done. simpl.
    split; [split; [done|]|intros bg''; split; [done|]].
    + intros (? & ? & _). congruence.
    + intros (_ & ? & ? & _). congruence.
Qed.

(** ** Claim C6 *)

(** C6: on a bulge graph whose [edges] are symmetric (and, as in the data
    model, join two different elements of [defines]), each splitting
    operation, and so every successful [split_at_cofold_cutpoints], returns
    a graph whose [edges] are again symmetric, and well formed in the same
    sense. *)
Theorem cofold_splits_preserve_symmetry bg :
  well_formed bg ->
  (forall splitpoint el er bg', _split_between_elements bg splitpoint el er = Ok bg' ->
     edges_symmetric bg' /\ well_formed bg') /\
  (forall splitpoint el er bg', _split_interior_loop bg splitpoint el er = Ok bg' ->
     edges_symmetric bg' /\ well_formed bg') /\
  (forall splitpoint element bg', _split_inside_stem bg splitpoint element = Ok bg' ->
     edges_symmetric bg' /\ well_formed bg') /\
  (forall splitpoint element bg', _split_inside_loop bg splitpoint element = Ok bg' ->
     edges_symmetric bg' /\ well_formed bg') /\
  (forall cutpoints bg', split_at_cofold_cutpoints bg cutpoints = Ok bg' ->
     edges_symmetric bg' /\ well_formed bg').
Proof.
  intros Hwf.
  assert (Hs : forall g, well_formed g -> edges_symmetric g /\ well_formed g)
    by (intros g Hg; split; [apply Hg|exact Hg]).
  split; [|split; [|split; [|split]]]; intros; apply Hs.
  - by eapply wf_split_between_elements.
  - by eapply wf_split_interior_loop.
  - by eapply wf_split_inside_stem.
  - by eapply wf_split_inside_loop.
  - by eapply wf_split_at_cofold_cutpoints.
Qed.

Lemma cofold_splits_preserve_symmetry_witness :
  well_formed g_iloop /\
  exists bg', split_at_cofold_cutpoints g_iloop [3] = Ok bg' /\ edges_symmetric bg'.
Proof.
  assert (Hwf : well_formed g_iloop)
    by (apply well_formed_check_sound, (bool_decide_unpack (well_formed_check g_iloop)); vm_compute; reflexivity).
  split; [exact Hwf|].
  eexists; split; [vm_compute; reflexivity|].
  apply (proj2 (proj2 (proj2 (proj2 (cofold_splits_preserve_symmetry g_iloop Hwf)))) [3]).
  vm_compute. reflexivity.
Defined.

Lemma tag_is_in n c cs :
  tag_is n c = true -> c ∈ String.list_ascii_of_string cs -> tag_in n cs = true.
Proof.
  destruct n as [|c' n]; simpl; [done|].
  intros ->%bool_decide_eq_true Hc. by apply bool_decide_eq_true.
Qed.

Lemma tag_is_excl n c c' : tag_is n c = true -> c <> c' -> tag_is n c' = false.
Proof.
  destruct n as [|c0 n]; simpl; [done|].
  intros ->%bool_decide_eq_true Hc. by apply bool_decide_eq_false.
Qed.

(** ** The interior loop split *)

Lemma at_side_spec bg splitpoint strand other_strand stems bg' :
  _split_interior_loop_at_side bg splitpoint strand other_strand stems = Ok bg' ->
  let nextML := _next_available_element_name bg "m" in
  let nextA := _next_available_element_name bg "t" in
  let nextB := _next_available_element_name bg "f" in
  exists stem0 stem1, stems !! 0%nat = Some stem0 /\ stems !! 1%nat = Some stem1 /\
    defines bg' =
      (if decide (splitpoint < strand.2) then <[nextB := [splitpoint + 1; strand.2]]> else id)
      ((if decide (splitpoint >= strand.1) then <[nextA := [strand.1; splitpoint]]> else id)
       (<[nextML := if decide (other_strand.1 > other_strand.2) then []
                    else [other_strand.1; other_strand.2]]> (defines bg))) /\
    (forall z w, w ∈ nbrs bg' z <->
       w ∈ nbrs bg z \/
       (z = nextML /\ (w = stem0 \/ w = stem1)) \/ (w = nextML /\ (z = stem0 \/ z = stem1)) \/
       (splitpoint >= strand.1 /\ (z = nextA /\ w = stem0 \/ w = nextA /\ z = stem0)) \/
       (splitpoint < strand.2 /\ (z = nextB /\ w = stem1 \/ w = nextB /\ z = stem1))).
Proof.
  intros H nextML nextA nextB.
  unfold _split_interior_loop_at_side in H. inv_bind H. injection H as <-.
  exists a, a0. unfold nth_err in Hbind, Hbind0.
  destruct (stems !! 0%nat) eqn:E0; [injection Hbind as ->|done].
  destruct (stems !! 1%nat) eqn:E1; [injection Hbind0 as ->|done].
  split; [done|split; [done|split]].
  - by repeat case_decide.
  - intros z w. repeat case_decide;
      rewrite ?elem_of_nbrs_add_edge, ?nbrs_put_define, ?elem_of_nbrs_add_edge,
        ?nbrs_put_define, ?elem_of_nbrs_add_edge, ?elem_of_nbrs_add_edge; naive_solver lia.
Qed.

Lemma at_side_new_nbrs bg splitpoint strand other_strand stems bg' stem0 stem1 :
  well_formed bg -> stems !! 0%nat = Some stem0 -> stems !! 1%nat = Some stem1 ->
  is_Some (defines bg !! stem0) -> is_Some (defines bg !! stem1) ->
  _split_interior_loop_at_side bg splitpoint strand other_strand stems = Ok bg' ->
  nbrs bg' (_next_available_element_name bg "m") = {[stem0; stem1]} /\
  ((splitpoint >= strand.1) -> nbrs bg' (_next_available_element_name bg "t") = {[stem0]}) /\
  ((splitpoint < strand.2) -> nbrs bg' (_next_available_element_name bg "f") = {[stem1]}).
Proof.
  intros Hwf E0 E1 D0 D1 H. unfold _split_interior_loop_at_side in H.
  unfold nth_err in H. rewrite E0, E1 in H. simpl in H. injection H as <-.
  pose proof (next_name_fresh bg "m") as FM. pose proof (next_name_fresh bg "t") as FA.
  pose proof (next_name_fresh bg "f") as FB.
  pose proof (next_name_m_t bg bg) as NMA. pose proof (next_name_m_f bg bg) as NMB.
  pose proof (next_name_t_f bg bg) as NAB.
  set (nextML := _next_available_element_name bg "m") in *.
  set (nextA := _next_available_element_name bg "t") in *.
  set (nextB := _next_available_element_name bg "f") in *.
  pose proof (defined_fresh_ne _ _ _ D0 FM). pose proof (defined_fresh_ne _ _ _ D0 FA).
  pose proof (defined_fresh_ne _ _ _ D0 FB). pose proof (defined_fresh_ne _ _ _ D1 FM).
  pose proof (defined_fresh_ne _ _ _ D1 FA). pose proof (defined_fresh_ne _ _ _ D1 FB).
  assert (XM : forall w, w ∉ nbrs bg nextML) by (intros w; by apply wf_fresh_no_nbrs).
  assert (XA : forall w, w ∉ nbrs bg nextA) by (intros w; by apply wf_fresh_no_nbrs).
  assert (XB : forall w, w ∉ nbrs bg nextB) by (intros w; by apply wf_fresh_no_nbrs).
  split; [|split]; [|intros Hs..]; repeat case_decide; try lia;
    apply set_eq; intros w; specialize (XM w); specialize (XA w); specialize (XB w);
    rewrite ?elem_of_nbrs_add_edge, ?nbrs_put_define, ?elem_of_nbrs_add_edge,
      ?nbrs_put_define, ?elem_of_nbrs_add_edge, ?elem_of_nbrs_add_edge,
      ?elem_of_union, ?elem_of_singleton; naive_solver.
Qed.

Lemma nbrs_remove_vertex_ne bg v z : z <> v -> nbrs (remove_vertex bg v) z = nbrs bg z ∖ {[v]}.
Proof. intros Hz. apply set_eq. intros w. rewrite elem_of_nbrs_remove_vertex. set_solver. Qed.

(** ** Claim C3 *)

Lemma connections_NoDup bg e : NoDup (connections bg e).
Proof. unfold connections. rewrite merge_sort_Permutation. apply NoDup_elements. Qed.

(** C3 (amended): when [_split_interior_loop] succeeds on a well-formed
    graph, the interior loop [iloop] is the left flanking element if that
    is an 'i' element and the right one otherwise.  Its first two
    connections [c0] and [c1] are two different stems, with defines [s1]
    and [s2]; the loop's forward strand runs from [s1[1]+1] to [s2[0]-1]
    and its back strand from [s2[3]+1] to [s1[2]-1].  The cut strand
    [strand] is the forward strand when the cut lies on it (from one
    before its start to its end), with [stem0 = c0] and [stem1 = c1], and
    the back strand otherwise, with the stems swapped; [other_strand] is
    the other one.  Then: [iloop] is gone; a multiloop segment is added
    whose define is [other_strand] (or empty when that strand has no
    nucleotide) and whose edges are exactly the two stems; a 't' end
    [strand.1 .. splitpoint] joined to [stem0] is added only when
    [splitpoint >= strand.1]; an 'f' end [splitpoint+1 .. strand.2] joined
    to [stem1] is added only when [splitpoint < strand.2]; no other define
    changes. *)
Theorem split_interior_loop_spec bg splitpoint el er bg' :
  well_formed bg ->
  _split_interior_loop bg splitpoint el er = Ok bg' ->
  let nextML := _next_available_element_name bg "m" in
  let nextA := _next_available_element_name bg "t" in
  let nextB := _next_available_element_name bg "f" in
  exists iloop stem0 stem1 (strand other_strand : Z * Z),
    iloop = (if tag_is el "i"%char then el else er) /\ tag_is iloop "i"%char = true /\
    stem0 ∈ nbrs bg iloop /\ stem1 ∈ nbrs bg iloop /\ stem0 <> stem1 /\
    (exists c0 c1 rest (s1 s2 : list Z) s1_1 s1_2 s2_0 s2_3,
       connections bg iloop = c0 :: c1 :: rest /\
       defines bg !! c0 = Some s1 /\ defines bg !! c1 = Some s2 /\
       s1 !! 1%nat = Some s1_1 /\ s1 !! 2%nat = Some s1_2 /\
       s2 !! 0%nat = Some s2_0 /\ s2 !! 3%nat = Some s2_3 /\
       let forward_strand := (s1_1 + 1, s2_0 - 1) in
       let back_strand := (s2_3 + 1, s1_2 - 1) in
       ((forward_strand.1 - 1 <= splitpoint <= forward_strand.2 /\
         strand = forward_strand /\ other_strand = back_strand /\ stem0 = c0 /\ stem1 = c1) \/
        (~ (forward_strand.1 - 1 <= splitpoint <= forward_strand.2) /\
         back_strand.1 - 1 <= splitpoint <= back_strand.2 /\
         strand = back_strand /\ other_strand = forward_strand /\ stem0 = c1 /\ stem1 = c0))) /\
    strand.1 - 1 <= splitpoint <= strand.2 /\
    defines bg' = delete iloop
      ((if decide (splitpoint < strand.2) then <[nextB := [splitpoint + 1; strand.2]]> else id)
       ((if decide (splitpoint >= strand.1) then <[nextA := [strand.1; splitpoint]]> else id)
        (<[nextML := if decide (other_strand.1 > other_strand.2) then []
                     else [other_strand.1; other_strand.2]]> (defines bg)))) /\
    nbrs bg' nextML = {[stem0; stem1]} /\
    ((splitpoint >= strand.1) -> nbrs bg' nextA = {[stem0]}) /\
    ((splitpoint < strand.2) -> nbrs bg' nextB = {[stem1]}).
Proof.
  intros Hwf H nextML nextA nextB. unfold _split_interior_loop in H. inv_bind H.
  injection H as <-.
  assert (Hil : a = (if tag_is el "i"%char then el else er) /\ tag_is a "i"%char = true).
  { destruct (tag_is el "i"%char) eqn:E1; [injection Hbind as <-; auto|].
    destruct (tag_is er "i"%char) eqn:E2; [injection Hbind as <-; auto|done]. }
  clear Hbind.
  assert (Hc0 : a0 ∈ nbrs bg a) by (apply connections_nbrs; by eapply nth_err_elem).
  assert (Hc1 : a2 ∈ nbrs bg a) by (apply connections_nbrs; by eapply nth_err_elem).
  assert (Hne : a0 <> a2).
  { intros ->. apply nth_err_Ok in Hbind0, Hbind2.
    pose proof (NoDup_lookup _ _ _ _ (connections_NoDup bg a) Hbind0 Hbind2). lia. }
  assert (Ec : exists rest, connections bg a = a0 :: a2 :: rest).
  { apply nth_err_Ok in Hbind0, Hbind2.
    destruct (connections bg a) as [|x0 [|x1 rest]]; simpl in *; try done.
    simplify_eq. eauto. }
  apply get_define_Ok in Hbind1, Hbind3.
  apply nth_err_Ok in Hbind4, Hbind5, Hbind6, Hbind7.
  pose proof Hwf as (Hsym & Hcl & Hirr).
  assert (Dl : is_Some (defines bg !! a)) by (eapply Hcl, Hsym, Hc0).
  assert (D0 : is_Some (defines bg !! a0)) by (eapply Hcl, Hc0).
  assert (D1 : is_Some (defines bg !! a2)) by (eapply Hcl, Hc1).
  pose proof (next_name_fresh bg "m") as FM. pose proof (next_name_fresh bg "t") as FA.
  pose proof (next_name_fresh bg "f") as FB.
  fold nextML in FM. fold nextA in FA. fold nextB in FB.
  assert (NMA : nextML <> nextA) by apply next_name_m_t.
  assert (NMB : nextML <> nextB) by apply next_name_m_f.
  assert (NAB : nextA <> nextB) by apply next_name_t_f.
  assert (Hfresh : forall n, defines bg !! n = None -> forall x, is_Some (defines bg !! x) -> x <> n /\ n <> x).
  { intros n Hn x Hx. split; [|apply not_eq_sym]; by eapply defined_fresh_ne. }
  destruct (Hfresh _ FM _ Dl), (Hfresh _ FA _ Dl), (Hfresh _ FB _ Dl).
  destruct (Hfresh _ FM _ D0), (Hfresh _ FA _ D0), (Hfresh _ FB _ D0).
  destruct (Hfresh _ FM _ D1), (Hfresh _ FA _ D1), (Hfresh _ FB _ D1).
  assert (a0 <> a) by (intros ->; by apply (Hirr a)).
  assert (a2 <> a) by (intros ->; by apply (Hirr a)).
  destruct Ec as [rest Ec].
  destruct (decide _) as [Hfw|Hfw] in Hbind8;
    [|destruct (decide _) as [Hbw|Hbw] in Hbind8; [|done]].
  - pose proof (at_side_spec _ _ _ _ _ _ Hbind8) as (stem0 & stem1 & E0 & E1 & Hdef & _).
    simpl in E0, E1. injection E0 as <-. injection E1 as <-.
    exists a, a0, a2, (a4 + 1, a5 - 1), (a6 + 1, a7 - 1).
    pose proof D0 as D0'. pose proof D1 as D1'.
    split; [apply Hil|split; [apply Hil|]].
    split; [done|split; [done|split; [congruence|]]].
    split; [exists a0, a2, rest, a1, a3, a4, a7, a5, a6; simpl in *; naive_solver|].
    split; [simpl in *; lia|split].
    { simpl. by rewrite Hdef. }
    pose proof (fun H0 H1 => at_side_new_nbrs _ _ _ _ _ _ _ _ Hwf H0 H1 D0' D1' Hbind8) as N.
    destruct (N eq_refl eq_refl) as (N1 & N2 & N3).
    unfold nextML, nextA, nextB. rewrite !nbrs_remove_vertex_ne by done.
    split; [|split]; [|intros Hs; specialize (N2 Hs)|intros Hs; specialize (N3 Hs)];
      [rewrite N1|rewrite N2|rewrite N3]; set_solver.
  - pose proof (at_side_spec _ _ _ _ _ _ Hbind8) as (stem0 & stem1 & E0 & E1 & Hdef & _).
    simpl in E0, E1. injection E0 as <-. injection E1 as <-.
    exists a, a2, a0, (a6 + 1, a7 - 1), (a4 + 1, a5 - 1).
    pose proof D1 as D0'. pose proof D0 as D1'.
    split; [apply Hil|split; [apply Hil|]].
    split; [done|split; [done|split; [congruence|]]].
    split; [exists a0, a2, rest, a1, a3, a4, a7, a5, a6; simpl in *; naive_solver|].
    split; [simpl in *; lia|split].
    { simpl. by rewrite Hdef. }
    pose proof (fun H0 H1 => at_side_new_nbrs _ _ _ _ _ _ _ _ Hwf H0 H1 D0' D1' Hbind8) as N.
    destruct (N eq_refl eq_refl) as (N1 & N2 & N3).
    unfold nextML, nextA, nextB. rewrite !nbrs_remove_vertex_ne by done.
    split; [|split]; [|intros Hs; specialize (N2 Hs)|intros Hs; specialize (N3 Hs)];
      [rewrite N1|rewrite N2|rewrite N3]; set_solver.
Qed.

Lemma split_interior_loop_spec_witness :
  well_formed g_iloop /\ _split_interior_loop g_iloop 3 "i0" "s1" = Ok g_iloop_cut3 /\
  let nextML := _next_available_element_name g_iloop "m" in
  let nextA := _next_available_element_name g_iloop "t" in
  let nextB := _next_available_element_name g_iloop "f" in
  exists iloop stem0 stem1 (strand other_strand : Z * Z),
    iloop = (if tag_is "i0" "i"%char then "i0" else "s1") /\ tag_is iloop "i"%char = true /\
    stem0 ∈ nbrs g_iloop iloop /\ stem1 ∈ nbrs g_iloop iloop /\ stem0 <> stem1 /\
    (exists c0 c1 rest (s1 s2 : list Z) s1_1 s1_2 s2_0 s2_3,
       connections g_iloop iloop = c0 :: c1 :: rest /\
       defines g_iloop !! c0 = Some s1 /\ defines g_iloop !! c1 = Some s2 /\
       s1 !! 1%nat = Some s1_1 /\ s1 !! 2%nat = Some s1_2 /\
       s2 !! 0%nat = Some s2_0 /\ s2 !! 3%nat = Some s2_3 /\
       let forward_strand := (s1_1 + 1, s2_0 - 1) in
       let back_strand := (s2_3 + 1, s1_2 - 1) in
       ((forward_strand.1 - 1 <= 3 <= forward_strand.2 /\
         strand = forward_strand /\ other_strand = back_strand /\ stem0 = c0 /\ stem1 = c1) \/
        (~ (forward_strand.1 - 1 <= 3 <= forward_strand.2) /\
         back_strand.1 - 1 <= 3 <= back_strand.2 /\
         strand = back_strand /\ other_strand = forward_strand /\ stem0 = c1 /\ stem1 = c0))) /\
    strand.1 - 1 <= 3 <= strand.2 /\
    defines g_iloop_cut3 = delete iloop
      ((if decide (3 < strand.2) then <[nextB := [3 + 1; strand.2]]> else id)
       ((if decide (3 >= strand.1) then <[nextA := [strand.1; 3]]> else id)
        (<[nextML := if decide (other_strand.1 > other_strand.2) then []
                     else [other_strand.1; other_strand.2]]> (defines g_iloop)))) /\
    nbrs g_iloop_cut3 nextML = {[stem0; stem1]} /\
    ((3 >= strand.1) -> nbrs g_iloop_cut3 nextA = {[stem0]}) /\
    ((3 < strand.2) -> nbrs g_iloop_cut3 nextB = {[stem1]}).
Proof.
  assert (Hwf : well_formed g_iloop)
    by (apply well_formed_check_sound, (bool_decide_unpack (well_formed_check g_iloop));
        vm_compute; reflexivity).
  assert (Hs : _split_interior_loop g_iloop 3 "i0" "s1" = Ok g_iloop_cut3)
    by (vm_compute; reflexivity).
  split; [exact Hwf|split; [exact Hs|]].
  exact (split_interior_loop_spec g_iloop 3 "i0" "s1" g_iloop_cut3 Hwf Hs).
Defined.

(** C3: cutting [g_iloop] after position 3, the last nucleotide of the
    strand [3..3], yields the 't' end [t0 = [3; 3]] and the multiloop
    segment [m0], but no 'f' end at all. *)
Lemma split_interior_loop_counterexample :
  _split_interior_loop g_iloop 3 "i0" "s1" = Ok g_iloop_cut3 /\
  set_Forall (fun k => tag_is k "f"%char = false) (dom (defines g_iloop_cut3)).
Proof.
  split; [vm_compute; reflexivity|].
  apply (bool_decide_unpack _). vm_compute. reflexivity.
Qed.

Lemma next_name_tag bg c : tag_is (_next_available_element_name bg (String c EmptyString)) c = true.
Proof.
  unfold _next_available_element_name.
  generalize (S (size (defines bg))) 0%nat. intros fuel.
  induction fuel as [|fuel IH]; intros i; simpl; [by apply bool_decide_eq_true|].
  destruct (defines bg !! _); [apply IH|by apply bool_decide_eq_true].
Qed.

(** ** Claim C4 *)

(** C4 (amended): [_split_inside_stem] on a stem [element] leaves the graph
    unchanged when the cut follows the last nucleotide of the stem's first
    strand ([define[1]]).  For any other cutpoint, on a well-formed graph, a
    successful split removes [element] and adds two stems [S1] and [S2],
    whose 4-entry defines are computed from the cutpoint and its pairing
    partners, and a multiloop segment [M] with an empty define whose edges
    are exactly [S1] and [S2]; every neighbour of [element] becomes a
    neighbour of exactly one of [S1] and [S2]: of [S1] when its flanking
    nucleotides touch the outer boundary of [S1] ([classify_edge] is
    [true]), of [S2] otherwise; [S1] and [S2] have no other neighbour
    than these and [M]. *)
Theorem split_inside_stem_spec bg splitpoint element d :
  tag_is element "s"%char = true -> defines bg !! element = Some d ->
  (d !! 1%nat = Some splitpoint -> _split_inside_stem bg splitpoint element = Ok bg) /\
  (forall bg', well_formed bg -> d !! 1%nat <> Some splitpoint ->
   _split_inside_stem bg splitpoint element = Ok bg' ->
   exists d0 d1 d2 d3 S1 M S2 (define1 define2 : list Z),
     d !! 0%nat = Some d0 /\ d !! 1%nat = Some d1 /\ d !! 2%nat = Some d2 /\ d !! 3%nat = Some d3 /\
     (define1, define2) =
       (if decide (splitpoint < d1) then
          ([d0; splitpoint; pairing_partner bg splitpoint; d3],
           [splitpoint + 1; d1; d2; pairing_partner bg (splitpoint + 1)])
        else
          ([d0; pairing_partner bg (splitpoint + 1); splitpoint + 1; d3],
           [pairing_partner bg splitpoint; d1; d2; splitpoint])) /\
     S1 <> M /\ S2 <> M /\ S1 <> S2 /\
     tag_is S1 "s"%char = true /\ tag_is M "m"%char = true /\ tag_is S2 "s"%char = true /\
     delete element (defines bg) !! S1 = None /\ delete element (defines bg) !! M = None /\
     delete element (defines bg) !! S2 = None /\
     defines bg' = <[S2 := define2]> (<[M := []]> (<[S1 := define1]> (delete element (defines bg)))) /\
     nbrs bg' M = {[S1; S2]} /\
     (forall e, e ∈ nbrs bg element ->
        (e ∈ nbrs bg' S1 /\ (e ∉ nbrs bg' S2) /\ classify_edge bg define1 define2 e = Ok true) \/
        (e ∈ nbrs bg' S2 /\ (e ∉ nbrs bg' S1) /\ classify_edge bg define1 define2 e = Ok false)) /\
     (forall e, e ∈ nbrs bg' S1 <->
        e = M \/ (e ∈ nbrs bg element /\ classify_edge bg define1 define2 e = Ok true)) /\
     (forall e, e ∈ nbrs bg' S2 <->
        e = M \/ (e ∈ nbrs bg element /\ classify_edge bg define1 define2 e = Ok false))).
Proof.
  intros Htag Hd. split.
  { intros Hd1. unfold _split_inside_stem. rewrite Htag. simpl.
    unfold get_define. rewrite Hd. simpl. unfold nth_err at 1. rewrite Hd1. simpl.
    by rewrite decide_True. }
  intros bg' Hwf Hd1 H. unfold _split_inside_stem in H. inv_bind H.
  case_decide as Hsp; [|inv_bind H; injection H as <-];
    unfold get_define in Hbind0; rewrite Hd in Hbind0; injection Hbind0 as <-.
  { subst. unfold nth_err in Hbind1. by destruct (d !! 1%nat); simplify_eq. }
  destruct a5 as [edges1 edges2]. simpl in *.
  apply partition_edges_spec in Hbind5 as (HP1 & HP2 & HP3).
  pose proof Hwf as (_ & _ & Hirr).
  set (define1 := (if decide (splitpoint < a1) then _ else _).1) in *.
  set (define2 := (if decide (splitpoint < a1) then _ else _).2) in *.
  set (bg1 := remove_vertex bg element) in *.
  set (S1 := _next_available_element_name bg1 "s") in *.
  pose proof (next_name_fresh bg1 "s") as FS1. fold S1 in FS1.
  set (bg2 := put_define bg1 S1 define1) in *.
  set (M := _next_available_element_name bg2 "m") in *.
  pose proof (next_name_fresh bg2 "m") as FM2. fold M in FM2.
  set (bg3 := put_define bg2 M []) in *.
  set (S2 := _next_available_element_name bg3 "s") in *.
  pose proof (next_name_fresh bg3 "s") as FS3. fold S2 in FS3.
  assert (NS1M : S1 <> M) by apply next_name_s_m.
  assert (NS2M : S2 <> M) by apply next_name_s_m.
  assert (NS12 : S1 <> S2).
  { intros Heq. unfold bg3, bg2 in FS3. simpl in FS3. rewrite <-Heq in FS3.
    rewrite lookup_insert_ne in FS3 by done. by rewrite lookup_insert_eq in FS3. }
  assert (FM : defines bg1 !! M = None).
  { unfold bg2 in FM2. simpl in FM2. by rewrite lookup_insert_ne in FM2. }
  assert (FS2 : defines bg1 !! S2 = None).
  { unfold bg3, bg2 in FS3. simpl in FS3. by rewrite !lookup_insert_ne in FS3. }
  assert (Hnb : forall e, e ∈ nbrs bg element -> e ∈ elements (nbrs bg element)) by
    (intros e; by rewrite elem_of_elements).
  assert (HE1 : forall e, e ∈ edges1 <-> e ∈ nbrs bg element /\ classify_edge bg define1 define2 e = Ok true).
  { intros e. split; [intros He; apply HP1 in He as [He ?]; by apply elem_of_elements in He|].
    intros [He Hc]. destruct (HP3 e (Hnb e He)) as [?|He2]; [done|].
    apply HP2 in He2 as [_ Hc']. congruence. }
  assert (HE2 : forall e, e ∈ edges2 <-> e ∈ nbrs bg element /\ classify_edge bg define1 define2 e = Ok false).
  { intros e. split; [intros He; apply HP2 in He as [He ?]; by apply elem_of_elements in He|].
    intros [He Hc]. destruct (HP3 e (Hnb e He)) as [He1|?]; [|done].
    apply HP1 in He1 as [_ Hc']. congruence. }
  set (bg' := set_edges _ _).
  assert (NB : forall z w, w ∈ nbrs bg' z <->
    (z = M /\ (w = S1 \/ w = S2)) \/
    (z <> M /\ z = S2 /\ (w ∈ edges2 \/ w = M)) \/
    (z <> M /\ z <> S2 /\ z = S1 /\ (w ∈ edges1 \/ w = M)) \/
    (z <> M /\ z <> S2 /\ z <> S1 /\
       (w ∈ nbrs (put_define bg3 S2 define2) z \/ (w = S1 /\ z ∈ edges1) \/ (w = S2 /\ z ∈ edges2))))
    by (intros z w; apply elem_of_nbrs_stem_rewire).
  assert (NS1 : forall e, e ∈ nbrs bg' S1 <-> e ∈ edges1 \/ e = M)
    by (intros e; rewrite NB; naive_solver).
  assert (NS2 : forall e, e ∈ nbrs bg' S2 <-> e ∈ edges2 \/ e = M)
    by (intros e; rewrite NB; naive_solver).
  assert (HnM : forall e, e ∈ nbrs bg element -> e <> M).
  { intros e He ->. assert (Hdef : is_Some (defines bg1 !! M)); [|by rewrite FM in Hdef].
    simpl. rewrite lookup_delete_ne; [by eapply wf_nbr_defined|].
    intros Heq. rewrite Heq in He. by apply (Hirr M). }
  unfold nth_err in Hbind1, Hbind2, Hbind3, Hbind4.
  destruct (d !! 0%nat) eqn:E0; [injection Hbind2 as ->|done].
  destruct (d !! 1%nat) eqn:E1; [injection Hbind1 as ->|done].
  destruct (d !! 2%nat) eqn:E2; [injection Hbind3 as ->|done].
  destruct (d !! 3%nat) eqn:E3; [injection Hbind4 as ->|done].
  exists a2, a1, a3, a4, S1, M, S2, define1, define2.
  do 4 (split; [done|]). split; [by destruct (decide (splitpoint < a1))|].
  do 3 (split; [done|]).
  split; [apply next_name_tag|split; [apply next_name_tag|split; [apply next_name_tag|]]].
  split; [exact FS1|split; [exact FM|split; [exact FS2|]]].
  split; [unfold bg'; simpl; by rewrite !defines_add_all|].
  split.
  { apply set_eq. intros w. rewrite NB, elem_of_union, !elem_of_singleton. naive_solver. }
  split; [|split].
  - intros e He. pose proof (HnM e He). destruct (classify_edge bg define1 define2 e) as [[|]|] eqn:Ec.
    + left. rewrite NS1, NS2, HE1, HE2. rewrite Ec. naive_solver.
    + right. rewrite NS1, NS2, HE1, HE2. rewrite Ec. naive_solver.
    + exfalso. destruct (HP3 e (Hnb e He)) as [He'|He']; [apply HE1 in He'|apply HE2 in He'];
        destruct He'; congruence.
  - intros e. rewrite NS1, HE1. naive_solver.
  - intros e. rewrite NS2, HE2. naive_solver.
Qed.

Lemma split_inside_stem_spec_witness :
  _split_inside_stem g_kissing_stem 2 "s0" = Ok g_kissing_stem /\
  exists S1 M S2, _split_inside_stem g_hairpin 1 "s0" = Ok g_hairpin_cut1 /\
    nbrs g_hairpin_cut1 M = {[S1; S2]}.
Proof.
  split.
  - apply (proj1 (split_inside_stem_spec g_kissing_stem 2 "s0" [1; 2; 3; 4]
                    ltac:(vm_compute; reflexivity) ltac:(vm_compute; reflexivity))).
    vm_compute. reflexivity.
  - assert (Hwf : well_formed g_hairpin)
      by (apply well_formed_check_sound, (bool_decide_unpack (well_formed_check g_hairpin));
          vm_compute; reflexivity).
    assert (Hs : _split_inside_stem g_hairpin 1 "s0" = Ok g_hairpin_cut1)
      by (vm_compute; reflexivity).
    destruct (proj2 (split_inside_stem_spec g_hairpin 1 "s0" [1; 2; 6; 7]
                       ltac:(vm_compute; reflexivity) ltac:(vm_compute; reflexivity))
                    g_hairpin_cut1 Hwf ltac:(vm_compute; discriminate) Hs)
      as (d0 & d1 & d2 & d3 & S1 & M & S2 & define1 & define2 & _ & _ & _ & _ & _ & _ & _ & _ &
          _ & _ & _ & _ & _ & _ & _ & HM & _).
    exists S1, M, S2. split; [exact Hs|exact HM].
Defined.

(** C4: the cut after position 2 of the stem [s0 = [1; 2; 3; 4]], whose
    strands meet directly, has [s0] on both sides, yet
    [split_at_cofold_cutpoints] returns the graph unchanged: no sub-stem
    and no multiloop connector is added. *)
Lemma split_inside_stem_counterexample :
  get_node_from_residue_num g_kissing_stem 2 = Ok "s0" /\
  get_node_from_residue_num g_kissing_stem (2 + 1) = Ok "s0" /\
  split_at_cofold_cutpoints g_kissing_stem [2] = Ok g_kissing_stem.
Proof. split; [|split]; vm_compute; reflexivity. Qed.

Lemma tag_in_excl n c cs :
  tag_is n c = true -> c ∉ String.list_ascii_of_string cs -> tag_in n cs = false.
Proof.
  destruct n as [|c' n]; simpl; [done|].
  intros ->%bool_decide_eq_true Hc. by apply bool_decide_eq_false.
Qed.

Lemma find_connection_Some bg splitpoint cs c :
  find_connection bg splitpoint cs = Ok (Some c) ->
  c ∈ cs /\
  (tag_is c "i"%char = true \/
   (defines bg !! c = Some [] /\ exists ad, define_a bg c = Ok ad /\ ad !! 0%nat = Some splitpoint)).
Proof.
  induction cs as [|x cs IH]; simpl; [done|].
  destruct (tag_is x "i"%char) eqn:Ei; [intros [= <-]; split; [left|by left]|].
  unfold get_define. destruct (defines bg !! x) as [d|] eqn:Ed; simpl; [|done].
  destruct d as [|z d].
  - destruct (define_a bg x) as [ad|] eqn:Ea; simpl; [|done].
    unfold nth_err. destruct (ad !! 0%nat) as [a0|] eqn:E0; simpl; [|done].
    case_decide as Ha; subst.
    + intros [= <-]. split; [left|right; eauto].
    + intros H. destruct (IH H) as [? ?]. split; [by right|done].
  - intros H. destruct (IH H) as [? ?]. split; [by right|done].
Qed.

(** ** Splitting between two stems *)

(** At a cut between two stems [el] and [er], [_split_between_elements]
    fails when the stems share no neighbour, and when no shared neighbour
    qualifies, both times with the [NameError] of the unimported
    [GraphConstructionError]; otherwise the selected connection [c] is a
    neighbour of both stems and: when [c] is an interior loop it is
    relabeled to the fresh multiloop name [nextML]; when [c] is a
    multiloop segment it has an empty define, its [define_a] starts at the
    cutpoint, and it is removed with no element added. *)
Theorem split_between_stems_spec bg splitpoint el er :
  tag_is el "s"%char = true -> tag_is er "s"%char = true ->
  let conns := nbrs bg el ∩ nbrs bg er in
  (size conns = 0%nat ->
     _split_between_elements bg splitpoint el er = Err (NameError "GraphConstructionError")) /\
  (size conns <> 0%nat -> find_connection bg splitpoint (elements conns) = Ok None ->
     _split_between_elements bg splitpoint el er = Err (NameError "GraphConstructionError")) /\
  (forall c, size conns <> 0%nat -> find_connection bg splitpoint (elements conns) = Ok (Some c) ->
     c ∈ nbrs bg el /\ c ∈ nbrs bg er /\
     (tag_is c "i"%char = true ->
        let nextML := _next_available_element_name bg "m" in
        defines bg !! nextML = None /\ tag_is nextML "m"%char = true /\
        _split_between_elements bg splitpoint el er = relabel_node bg c nextML) /\
     (tag_is c "m"%char = true ->
        defines bg !! c = Some [] /\
        (exists ad, define_a bg c = Ok ad /\ ad !! 0%nat = Some splitpoint) /\
        _split_between_elements bg splitpoint el er = Ok (remove_vertex bg c))).
Proof.
  intros Hl Hr conns.
  assert (Hmh : forall n, tag_is n "s"%char = true -> tag_in n "mh" = false).
  { intros n Hn. apply (tag_in_excl n "s"%char); [done|].
    apply (bool_decide_unpack _). vm_compute. reflexivity. }
  assert (Hsplit : _split_between_elements bg splitpoint el er =
    if decide (size conns = 0%nat) then
      raise_GraphConstructionError
    else
      let* found := find_connection bg splitpoint (elements conns) in
      match found with
      | None => raise_GraphConstructionError
      | Some connection =>
          if tag_is connection "m"%char then Ok (remove_vertex bg connection)
          else
            let* _ := py_assert (tag_is connection "i"%char) in
            let nextML := _next_available_element_name bg "m" in
            let* _ := py_assert (bool_decide (defines bg !! nextML = None)) in
            relabel_node bg connection nextML
      end).
  { unfold _split_between_elements. rewrite (Hmh el Hl), (Hmh er Hr), Hl, Hr. done. }
  split; [|split].
  - intros H0. by rewrite Hsplit, decide_True.
  - intros H0 Hf. by rewrite Hsplit, decide_False, Hf.
  - intros c H0 Hf. rewrite Hsplit, decide_False, Hf by done. simpl.
    destruct (find_connection_Some _ _ _ _ Hf) as [Hc Hkind].
    apply elem_of_elements, elem_of_intersection in Hc as [Hcl Hcr].
    split; [done|split; [done|split]].
    + intros Hi. rewrite (tag_is_excl c "i"%char "m"%char) by done. rewrite Hi. simpl.
      pose proof (next_name_fresh bg "m") as Hfresh.
      split; [done|split; [apply next_name_tag|]].
      by rewrite bool_decide_eq_true_2.
    + intros Hm. rewrite Hm. split; [|split; [|done]].
      * destruct Hkind as [Hi|[? _]]; [|done].
        by rewrite (tag_is_excl c "m"%char "i"%char) in Hi.
      * destruct Hkind as [Hi|[_ ?]]; [|done].
        by rewrite (tag_is_excl c "m"%char "i"%char) in Hi.
Qed.

Lemma split_between_stems_spec_witness :
  _split_between_elements g_multiloop 4 "s1" "s2" = Ok (remove_vertex g_multiloop "m1").
Proof.
  destruct (split_between_stems_spec g_multiloop 4 "s1" "s2"
              ltac:(vm_compute; reflexivity) ltac:(vm_compute; reflexivity)) as (_ & _ & H).
  destruct (H "m1" ltac:(vm_compute; discriminate) ltac:(vm_compute; reflexivity))
    as (_ & _ & _ & Hm).
  apply Hm. vm_compute. reflexivity.
Defined.

(** ** Sequence lemmas *)

Lemma filter_insert_at_first p m l l' :
  nt_observed m = false -> insert_at_first p m l = Some l' ->
  List.filter nt_observed l' = List.filter nt_observed l.
Proof.
  intros Hm. revert l'. induction l as [|e l IH]; intros l'; simpl; [done|].
  destruct (p e).
  - intros [= <-]. simpl. by rewrite Hm.
  - destruct (insert_at_first p m l) as [l''|] eqn:E; simpl; [|done].
    intros [= <-]. simpl. by rewrite (IH l'' eq_refl).
Qed.

Lemma filter_rev_nt (f : nt -> bool) l : List.filter f (rev l) = rev (List.filter f l).
Proof.
  induction l as [|e l IH]; simpl; [done|].
  rewrite List.filter_app, IH. simpl. destruct (f e); simpl; [done|]. by rewrite app_nil_r.
Qed.

Lemma filter_insert_missing F m :
  nt_observed m = false -> List.filter nt_observed (insert_missing F m) = List.filter nt_observed F.
Proof.
  intros Hm. unfold insert_missing.
  destruct (insert_at_first _ m F) as [F'|] eqn:E1; [by eapply filter_insert_at_first|].
  destruct (insert_at_first _ m (rev F)) as [R|] eqn:E2.
  - rewrite filter_rev_nt, (filter_insert_at_first _ _ _ _ Hm E2), filter_rev_nt.
    apply rev_involutive.
  - rewrite List.filter_app. simpl. rewrite Hm. apply app_nil_r.
Qed.

Lemma filter_zip_observed cs rs :
  List.filter nt_observed (zip_observed cs rs) = zip_observed cs rs.
Proof.
  revert rs. induction cs as [|c cs IH]; intros [|r rs]; simpl; try done. by rewrite IH.
Qed.

(** The observed residues are the full sequence without the missing ones. *)
Lemma filter_full_nts s : List.filter nt_observed (full_nts s) = observed_nts s.
Proof.
  unfold full_nts.
  assert (forall ms F, Forall (fun m => nt_observed m = false) ms ->
            List.filter nt_observed (fold_left insert_missing ms F) = List.filter nt_observed F) as H.
  { induction ms as [|m ms IH]; intros F Hms; simpl; [done|].
    apply Forall_cons in Hms as [Hm Hms]. rewrite IH by done. by apply filter_insert_missing. }
  rewrite H; [apply filter_zip_observed|].
  apply Forall_forall. intros m Hin. apply list_elem_of_In, in_map_iff in Hin as [[r n] [<- _]]. done.
Qed.

(** The position in [l] of its [k]-th observed residue. *)
Fixpoint obs_index (l : list nt) (k : nat) : option nat :=
  match l with
  | [] => None
  | e :: l' =>
      if nt_observed e then
        match k with O => Some O | S k' => S <$> obs_index l' k' end
      else S <$> obs_index l' k
  end.

Lemma obs_index_lookup l k e :
  List.filter nt_observed l !! k = Some e -> exists i, obs_index l k = Some i /\ l !! i = Some e.
Proof.
  revert k. induction l as [|x l IH]; intros k; simpl; [done|].
  destruct (nt_observed x).
  - destruct k as [|k]; simpl.
    + intros [= ->]. by exists O.
    + intros H. destruct (IH k H) as [i [-> Hi]]. by exists (S i).
  - intros H. destruct (IH k H) as [i [-> Hi]]. by exists (S i).
Qed.

Lemma obs_index_ge l k i : obs_index l k = Some i -> (k <= i)%nat.
Proof.
  revert k i. induction l as [|x l IH]; intros k i; simpl; [done|].
  destruct (nt_observed x); [destruct k as [|k]; [intros [= <-]; lia|]|];
    destruct (obs_index l _) as [i'|] eqn:E; simpl; try done;
    intros [= <-]; pose proof (IH _ _ E); lia.
Qed.

Lemma obs_index_mono l a b i j :
  obs_index l a = Some i -> obs_index l b = Some j -> (a <= b)%nat -> (i + (b - a) <= j)%nat.
Proof.
  revert a b i j. induction l as [|x l IH]; intros a b i j; simpl; [done|].
  destruct (nt_observed x).
  - destruct a as [|a], b as [|b]; simpl.
    + intros [= <-] [= <-]. lia.
    + intros [= <-] Hj _. destruct (obs_index l b) as [j'|] eqn:Ej; simpl in Hj; [|done].
      injection Hj as <-. pose proof (obs_index_ge _ _ _ Ej). lia.
    + intros; lia.
    + intros Hi Hj Hab.
      destruct (obs_index l a) as [i'|] eqn:Ei; simpl in Hi; [|done].
      destruct (obs_index l b) as [j'|] eqn:Ej; simpl in Hj; [|done].
      injection Hi as <-. injection Hj as <-.
      pose proof (IH a b i' j' Ei Ej ltac:(lia)). lia.
  - intros Hi Hj Hab.
    destruct (obs_index l a) as [i'|] eqn:Ei; simpl in Hi; [|done].
    destruct (obs_index l b) as [j'|] eqn:Ej; simpl in Hj; [|done].
    injection Hi as <-. injection Hj as <-.
    pose proof (IH a b i' j' Ei Ej Hab). lia.
Qed.

Lemma find_pos_nodup l i e :
  NoDup (map nt_id l) -> l !! i = Some e -> find_pos (nt_id e) l = Some i.
Proof.
  revert i. induction l as [|x l IH]; intros i; simpl; [done|].
  intros Hnd. apply NoDup_cons in Hnd as [Hx Hnd].
  destruct i as [|i]; simpl.
  - intros [= ->]. by rewrite decide_True.
  - intros Hi. rewrite decide_False.
    + by rewrite (IH i Hnd Hi).
    + intros Heq. apply Hx. rewrite Heq. apply list_elem_of_In, in_map, list_elem_of_In. by eapply list_elem_of_lookup_2.
Qed.

Lemma find_pos_Some r l i : find_pos r l = Some i -> exists e, l !! i = Some e /\ nt_id e = r.
Proof.
  revert i. induction l as [|x l IH]; intros i; simpl; [done|].
  case_decide.
  - intros [= <-]. by exists x.
  - destruct (find_pos r l) as [i'|] eqn:E; simpl; [|done]. intros [= <-]. simpl. by apply IH.
Qed.

Lemma int_to_observed_in s k :
  1 <= k <= Z.of_nat (length (observed_nts s)) -> int_to_observed s k = Ok (Z.to_nat (k - 1)).
Proof. intros Hk. unfold int_to_observed. by rewrite bool_decide_eq_true_2. Qed.

(** A residue at a valid observed position sits in the full sequence at a
    position that grows at least as fast as the observed one. *)
Lemma define_pos_missing v s a :
  vw_missing v = true -> NoDup (map nt_id (full_nts s)) ->
  1 <= a <= Z.of_nat (length (observed_nts s)) ->
  exists i, define_pos v s a = Ok (Z.of_nat i + 1) /\ obs_index (full_nts s) (Z.to_nat (a - 1)) = Some i.
Proof.
  intros Hv Hnd Ha. unfold define_pos, int_to_view_pos. rewrite Hv, int_to_observed_in by done.
  simpl. unfold nth_nt.
  destruct (observed_nts s !! Z.to_nat (a - 1)) as [e|] eqn:He;
    [|apply lookup_ge_None in He; lia].
  simpl. rewrite <- filter_full_nts in He.
  destruct (obs_index_lookup _ _ _ He) as [i [Hi Hfi]].
  exists i. split; [|done].
  unfold resid_to_pos, view_nts. rewrite Hv, (find_pos_nodup _ _ _ Hnd Hfi). done.
Qed.

Lemma find_pos_None r l : find_pos r l = None <-> r ∉ map nt_id l.
Proof.
  induction l as [|x l IH]; simpl.
  - split; [intros _; apply not_elem_of_nil|done].
  - rewrite not_elem_of_cons. case_decide as Hx.
    + split; [done|]. intros [? _]. congruence.
    + destruct (find_pos r l); simpl; rewrite <- IH; naive_solver.
Qed.

(** ** Claim C7 *)

(** C7: [define_length] of the empty list is [0] in every view; outside the
    [with_missing] view, [define_length [a; b]] is [b - a + 1] and
    [define_length [a; b; c; d]] is [(b - a + 1) + (d - c + 1)]; in a
    [with_missing] view, for valid positions [1 <= a <= b <= n], it is at
    least [b - a + 1] (the gap residues between the two are counted too),
    and there are sequences for which it is larger. *)
Theorem define_length_spec (s : sequence) :
  (forall v, vw_missing v = false ->
     define_length v s [] = Ok 0 /\
     (forall a b, define_length v s [a; b] = Ok (b - a + 1)) /\
     (forall a b c d, define_length v s [a; b; c; d] = Ok ((b - a + 1) + (d - c + 1)))) /\
  (forall v, vw_missing v = true ->
     define_length v s [] = Ok 0 /\
     (NoDup (map nt_id (full_nts s)) ->
      forall a b, 1 <= a <= b -> b <= Z.of_nat (seq_len base_view s) ->
        exists k, define_length v s [a; b] = Ok k /\ b - a + 1 <= k)) /\
  (exists s' a b k, define_length (with_missing base_view) s' [a; b] = Ok k /\
     define_length base_view s' [a; b] = Ok (b - a + 1) /\ b - a + 1 < k).
Proof.
  split; [|split].
  - intros v Hv. unfold define_length, define_pos. rewrite Hv. simpl.
    split; [done|split]; intros; f_equal; lia.
  - intros v Hv. split; [done|].
    intros Hnd a b Ha Hb. unfold seq_len, view_nts in Hb. simpl in Hb.
    destruct (define_pos_missing v s a Hv Hnd ltac:(lia)) as [i [Hpa Hia]].
    destruct (define_pos_missing v s b Hv Hnd ltac:(lia)) as [j [Hpb Hjb]].
    pose proof (obs_index_mono _ _ _ _ _ Hia Hjb ltac:(lia)).
    eexists. unfold define_length. simpl. rewrite Hpa, Hpb. simpl.
    split; [reflexivity|lia].
  - exists seq1, 4, 5, 3. vm_compute. split; [reflexivity|split; [reflexivity|]]. done.
Qed.

(** ** Claim C8 *)

(** C8: the two views commute: applying [with_missing] and
    [with_modifications] in either order gives the same view, so every
    lookup agrees; a residue id addressable in the composed view shows its
    modification entry if it has one and its code otherwise. *)
Theorem views_commute (v : view) (s : sequence) :
  with_missing (with_modifications v) = with_modifications (with_missing v) /\
  (forall r, getitem_resid (with_missing (with_modifications v)) s r =
             getitem_resid (with_modifications (with_missing v)) s r) /\
  (forall k, getitem_int (with_missing (with_modifications v)) s k =
             getitem_int (with_modifications (with_missing v)) s k) /\
  (forall a b st, getslice (with_missing (with_modifications v)) s a b st =
                  getslice (with_modifications (with_missing v)) s a b st) /\
  (forall d, define_length (with_missing (with_modifications v)) s d =
             define_length (with_modifications (with_missing v)) s d) /\
  (forall r i, find_pos r (full_nts s) = Some i ->
     exists e, full_nts s !! i = Some e /\ nt_id e = r /\
       getitem_resid (with_missing (with_modifications v)) s r =
         Ok (default (nt_code e) (assoc_lookup r (_modifications s))) /\
       getitem_resid (with_modifications (with_missing v)) s r =
         Ok (default (nt_code e) (assoc_lookup r (_modifications s)))).
Proof.
  assert (Hv : with_missing (with_modifications v) = with_modifications (with_missing v))
    by (destruct v; reflexivity).
  split; [done|]. rewrite <- Hv.
  split; [done|split; [done|split; [done|split; [done|]]]].
  intros r i Hi. destruct (find_pos_Some _ _ _ Hi) as [e [He <-]].
  exists e. split; [done|split; [done|]].
  unfold getitem_resid, resid_to_pos, view_nts, nth_nt. simpl.
  rewrite Hi. simpl. rewrite He. simpl. unfold display. simpl. done.
Qed.

(** ** Claim C9 *)

(** C9 (amended): indexing by a residue id absent from the addressed view
    raises [LookupError], except a known missing residue addressed without
    [with_missing], which raises [IndexError]; an integer position outside
    [1 .. n] and [-n .. -1] ([n] observed residues) raises [IndexError], and
    so does a slice whose step is not [1] or [-1], step [0] included. *)
Theorem sequence_index_errors (v : view) (s : sequence) :
  let n := Z.of_nat (length (observed_nts s)) in
  (forall r, r ∉ map nt_id (view_nts v s) ->
     (vw_missing v = true \/ r ∉ map fst (_missing s)) ->
     getitem_resid v s r = Err LookupError) /\
  (forall r, vw_missing v = false -> r ∉ map nt_id (observed_nts s) ->
     r ∈ map fst (_missing s) -> getitem_resid v s r = Err IndexError) /\
  (forall k, ~ (1 <= k <= n) -> ~ (- n <= k <= -1) -> getitem_int v s k = Err IndexError) /\
  (forall a b st, st <> 1 -> st <> -1 -> getslice v s a b (Some st) = Err IndexError).
Proof.
  intros n. split; [|split; [|split]].
  - intros r Hr Hm. unfold getitem_resid, resid_to_pos.
    apply find_pos_None in Hr. rewrite Hr.
    destruct Hm as [-> | Hm]; simpl.
    + by rewrite andb_false_r.
    + by rewrite bool_decide_eq_false_2.
  - intros r Hv Hr Hm. unfold getitem_resid, resid_to_pos, view_nts.
    rewrite Hv. apply find_pos_None in Hr. rewrite Hr. simpl.
    by rewrite bool_decide_eq_true_2.
  - intros k H1 H2. unfold getitem_int, int_to_observed.
    rewrite !bool_decide_eq_false_2 by done. done.
  - intros a b st H1 H2. unfold getslice. simpl.
    by rewrite bool_decide_eq_true_2.
Qed.

Lemma sequence_index_errors_counterexample :
  rid "A" 8 ∈ map fst (_missing seq1) /\
  getitem_resid base_view seq1 (rid "A" 8) = Err IndexError /\
  getitem_resid (with_modifications base_view) seq2 (rid "A" 13) = Err IndexError.
Proof.
  split; [|split; [vm_compute; reflexivity|vm_compute; reflexivity]].
  apply (bool_decide_unpack _). vm_compute. reflexivity.
Qed.

(** * Further properties of [_cofold.py] *)

(** ** Edge primitives *)

Lemma union_difference_singleton (x : string) (s : gset string) :
  x ∈ s -> {[x]} ∪ s ∖ {[x]} = s.
Proof.
  intros Hx. apply set_eq. intros z.
  rewrite elem_of_union, elem_of_difference, elem_of_singleton.
  destruct (decide (z = x)); subst; tauto.
Qed.

(** [_remove_edge] followed by [_add_edge] on the same pair gives back the
    graph it started from: a successful removal only takes out the two
    directed entries that [_add_edge] puts back. *)
Theorem remove_edge_then_add_edge bg x y bg' :
  _remove_edge bg x y = Ok bg' -> _add_edge bg' x y = bg.
Proof.
  unfold _remove_edge. case_decide as Hy; [|done]. case_decide as Hx; [|done].
  intros [= <-].
  apply nbrs_Some in Hy as [sx [Hsx Hy]].
  assert (Hne : x <> y).
  { intros ->. rewrite lookup_insert_eq in Hx. simpl in Hx. unfold nbrs in Hx.
    rewrite Hsx in Hx. simpl in Hx. set_solver. }
  rewrite lookup_insert_ne in Hx by congruence.
  destruct (edges bg !! y) as [sy|] eqn:Hsy; simpl in Hx; [|set_solver].
  destruct bg as [ds es pt]. unfold _add_edge, set_edges, add_nbr. simpl in *. f_equal.
  apply map_eq. intros k. unfold nbrs. simpl. rewrite Hsx.
  rewrite !lookup_insert. simpl.
  destruct (decide (y = k)) as [<-|Hyk]; [|destruct (decide (x = k)) as [<-|Hxk]];
    repeat first [rewrite decide_True by done | rewrite decide_False by congruence]; simpl.
  - rewrite Hsy. f_equal. by apply union_difference_singleton.
  - rewrite Hsx. f_equal. by apply union_difference_singleton.
  - done.
Qed.

(** [_add_edge] of a new edge between two different elements followed by
    [_remove_edge] of it succeeds and leaves every neighbour set, the
    defines and the pairing table as they were. *)
Theorem add_edge_then_remove_edge bg x y :
  x <> y -> y ∉ nbrs bg x -> x ∉ nbrs bg y ->
  exists bg', _remove_edge (_add_edge bg x y) x y = Ok bg' /\
    defines bg' = defines bg /\ pair_table bg' = pair_table bg /\
    forall z, nbrs bg' z = nbrs bg z.
Proof.
  intros Hne Hyx Hxy.
  assert (H1 : y ∈ nbrs (_add_edge bg x y) x) by (apply elem_of_nbrs_add_edge; tauto).
  destruct (_remove_edge (_add_edge bg x y) x y) as [bg'|e] eqn:E.
  - exists bg'. split; [done|]. split; [|split].
    + rewrite (defines_remove_edge _ _ _ _ E). done.
    + revert E. unfold _remove_edge. case_decide; [|done]. case_decide; [|done].
      by intros [= <-].
    + intros z. apply set_eq. intros w.
      rewrite (elem_of_nbrs_remove_edge _ _ _ _ _ _ E), elem_of_nbrs_add_edge.
      split; [|naive_solver].
      intros [[[-> ->]|[[-> ->]|Hw]] Hn]; [tauto|tauto|done].
  - exfalso. revert E. unfold _remove_edge. rewrite decide_True by done.
    rewrite lookup_insert_ne by congruence.
    assert (H2 : x ∈ nbrs (_add_edge bg x y) y) by (apply elem_of_nbrs_add_edge; tauto).
    unfold nbrs in H2. rewrite decide_True by done. done.
Qed.

(** [_remove_edge] raises only [KeyError], and succeeds exactly when the
    two elements are different and each lists the other as a neighbour. *)
Theorem remove_edge_errors bg x y :
  (forall e, _remove_edge bg x y = Err e -> e = KeyError) /\
  ((exists bg', _remove_edge bg x y = Ok bg') <-> x <> y /\ y ∈ nbrs bg x /\ x ∈ nbrs bg y).
Proof.
  unfold _remove_edge. split.
  - intros e. repeat case_decide; congruence.
  - case_decide as Hy; [|split; [intros [? ?]; done|tauto]].
    destruct (decide (x = y)) as [<-|Hne].
    + rewrite lookup_insert_eq. simpl. rewrite decide_False by set_solver.
      split; [intros [? ?]; done|tauto].
    + rewrite lookup_insert_ne by congruence. fold (nbrs bg y).
      case_decide; [split; [done|]; eauto|split; [intros [? ?]; done|tauto]].
Qed.

(** ** Name allocation *)

Lemma next_name_least (bg : bulge_graph) (element_type : string) :
  exists i, _next_available_element_name bg element_type = element_name element_type i /\
    defines bg !! element_name element_type i = None /\
    forall k, (k < i)%nat -> is_Some (defines bg !! element_name element_type k).
Proof.
  destruct (free_name_exists (defines bg) element_type) as [j [Hj Hfree]].
  destruct (next_name_from_spec (defines bg) element_type (S (size (defines bg))) 0)
    as [i (Heq & _ & Hfree' & Hbelow)].
  { exists j. split; [lia|done]. }
  exists i. unfold _next_available_element_name. rewrite Heq.
  split; [done|split; [done|]]. intros k Hk. apply Hbelow. lia.
Qed.

(** Defining the name [_next_available_element_name] returns makes the
    next call for the same type return a name with a strictly larger
    index. *)
Theorem next_available_element_name_increasing (bg : bulge_graph) (element_type : string)
    (d : list Z) :
  let n1 := _next_available_element_name bg element_type in
  let n2 := _next_available_element_name (put_define bg n1 d) element_type in
  exists i j, n1 = element_name element_type i /\ n2 = element_name element_type j /\ (i < j)%nat.
Proof.
  intros n1 n2.
  destruct (next_name_least bg element_type) as [i (Hi & Hfree & Hbelow)].
  destruct (next_name_least (put_define bg n1 d) element_type) as [j (Hj & Hfree2 & _)].
  exists i, j. split; [done|split; [done|]].
  assert (Hn1 : n1 = element_name element_type i) by exact Hi.
  change (defines (put_define bg n1 d)) with (<[n1 := d]> (defines bg)) in Hfree2.
  rewrite Hn1 in Hfree2.
  destruct (decide (j = i)) as [->|Hne]; [by rewrite lookup_insert_eq in Hfree2|].
  rewrite lookup_insert_ne in Hfree2
    by (intros Heq; apply Hne; symmetry; by apply element_name_inj in Heq).
  destruct (decide (j < i)%nat) as [Hlt|]; [|lia].
  destruct (Hbelow j Hlt) as [? Hs]. congruence.
Qed.

(** ** The cutpoint loop *)

(** On a graph without elements, [split_at_cofold_cutpoints] fails: with
    a cutpoint, the lookup of the residue raises [LookupError]; without
    any, [_is_connected] indexes an empty key list ([IndexError]). *)
Theorem split_at_cofold_cutpoints_empty_graph bg cutpoints :
  defines bg = ∅ ->
  split_at_cofold_cutpoints bg cutpoints =
    match cutpoints with [] => Err IndexError | _ => Err LookupError end.
Proof.
  intros He. unfold split_at_cofold_cutpoints.
  destruct cutpoints as [|c cs]; simpl.
  - unfold _is_connected, first_element. rewrite He, map_to_list_empty. done.
  - unfold cofold_step, get_node_from_residue_num. rewrite He, map_to_list_empty. done.
Qed.

(** ** [_split_inside_loop] *)

(** A successful [_split_inside_loop] on a hairpin or multiloop segment
    [element] with define [[from_; to_]] replaces it by a fresh 't' end
    [[from_; splitpoint]] joined to the element at [from_ - 1] and a fresh
    'f' end [[splitpoint + 1; to_]] joined to the element at [to_ + 1];
    all other edges stay, except those of [element]. *)
Theorem split_inside_loop_result bg splitpoint element from_ to_ bg' :
  defines bg !! element = Some [from_; to_] ->
  _split_inside_loop bg splitpoint element = Ok bg' ->
  exists next3 next5 stem_left stem_right,
    get_node_from_residue_num bg (from_ - 1) = Ok stem_left /\
    get_node_from_residue_num bg (to_ + 1) = Ok stem_right /\
    tag_is next3 "t"%char = true /\ tag_is next5 "f"%char = true /\
    defines bg !! next3 = None /\ defines bg !! next5 = None /\
    defines bg' = <[next5 := [splitpoint + 1; to_]]>
                    (<[next3 := [from_; splitpoint]]> (delete element (defines bg))) /\
    (forall z w, w ∈ nbrs bg' z <->
       z <> element /\ w <> element /\
       (w ∈ nbrs bg z \/ (z = stem_left /\ w = next3) \/ (z = next3 /\ w = stem_left) \/
        (z = next5 /\ w = stem_right) \/ (z = stem_right /\ w = next5))).
Proof.
  intros Hd H. unfold _split_inside_loop in H.
  destruct (tag_in element "hm"); [|done].
  unfold get_define in H. rewrite Hd in H. simpl in H. inv_bind H. injection H as <-.
  pose proof (next_name_fresh bg "t") as F3. pose proof (next_name_fresh bg "f") as F5.
  set (next3 := _next_available_element_name bg "t") in *.
  set (next5 := _next_available_element_name bg "f") in *.
  exists next3, next5, a, a0.
  split; [done|split; [done|]].
  split; [apply (next_name_tag bg "t"%char)|split; [apply (next_name_tag bg "f"%char)|]].
  split; [done|split; [done|split]].
  - simpl. rewrite delete_insert_ne by congruence. rewrite delete_insert_ne by congruence. done.
  - intros z w. rewrite elem_of_nbrs_remove_vertex, !elem_of_nbrs_add_edge, !nbrs_put_define.
    naive_solver.
Qed.

(** ** Loop ends in [_split_between_elements] *)

Lemma rename_ne_old old_name new_name x :
  old_name <> new_name -> rename old_name new_name x <> old_name.
Proof. unfold rename. case_decide; congruence. Qed.

Lemma rename_back old_name new_name x :
  x <> old_name -> rename old_name new_name (rename new_name old_name x) = x.
Proof.
  unfold rename. intros Hx. destruct (decide (x = new_name)) as [->|Hn].
  - by rewrite !decide_True.
  - by rewrite !decide_False.
Qed.

Lemma rename_back' old_name new_name x :
  x <> new_name -> rename new_name old_name (rename old_name new_name x) = x.
Proof. apply rename_back. Qed.

Lemma relabel_nbrs_back bg old_name new_name bg' z w :
  well_formed bg -> is_Some (defines bg !! old_name) -> defines bg !! new_name = None ->
  relabel_node bg old_name new_name = Ok bg' ->
  w ∈ nbrs bg' z <->
  z <> old_name /\ w <> old_name /\
  rename new_name old_name w ∈ nbrs bg (rename new_name old_name z).
Proof.
  intros Hwf Hold Hnew Hr. rewrite (relabel_nbrs_char bg old_name new_name bg' z w Hwf Hnew Hr).
  pose proof (defined_fresh_ne bg _ _ Hold Hnew) as Hne.
  pose proof Hwf as (Hsym & _ & _).
  split.
  - intros (z0 & w0 & -> & -> & Hin).
    assert (Hz0 : z0 <> new_name).
    { apply Hsym in Hin. apply (defined_fresh_ne bg); [|done]. by apply (wf_nbr_defined bg w0). }
    assert (Hw0 : w0 <> new_name).
    { apply (defined_fresh_ne bg); [|done]. by apply (wf_nbr_defined bg z0). }
    rewrite !rename_back' by done.
    split; [by apply rename_ne_old|split; [by apply rename_ne_old|done]].
  - intros (Hz & Hw & Hin). exists (rename new_name old_name z), (rename new_name old_name w).
    rewrite !rename_back by done. done.
Qed.

Lemma remove_edge_Ok_iff g a b :
  (exists g', _remove_edge g a b = Ok g') <-> b ∈ nbrs g a /\ a ∈ nbrs g b /\ a <> b.
Proof.
  unfold _remove_edge. case_decide as Hb; [|naive_solver].
  destruct (decide (a = b)) as [<-|Hab].
  - rewrite lookup_insert. simpl.
    rewrite decide_False; [naive_solver|]. rewrite decide_True by done. simpl. rewrite elem_of_difference, elem_of_singleton. tauto.
  - rewrite lookup_insert_ne by done. unfold nbrs at 2. case_decide; naive_solver.
Qed.

Lemma relabel_remove_edge_result bg old_name new_name other d (keep : bool) :
  well_formed bg -> defines bg !! old_name = Some d -> defines bg !! new_name = None ->
  let r := (let* bg1 := relabel_node bg old_name new_name in
            if negb keep then _remove_edge bg1 new_name other else Ok bg1) in
  (forall bg', r = Ok bg' ->
     defines bg' = <[new_name := d]> (delete old_name (defines bg)) /\
     pair_table bg' = pair_table bg /\
     forall z w, w ∈ nbrs bg' z <->
       z <> old_name /\ w <> old_name /\
       rename new_name old_name w ∈ nbrs bg (rename new_name old_name z) /\
       (keep = false -> ~ ((z = new_name /\ w = other) \/ (z = other /\ w = new_name)))) /\
  ((exists bg', r = Ok bg') <-> keep = true \/ other ∈ nbrs bg old_name) /\
  (forall e, r = Err e -> e = KeyError).
Proof.
  intros Hwf Hd Hnew r.
  assert (Hold : is_Some (defines bg !! old_name)) by eauto.
  pose proof (defined_fresh_ne bg _ _ Hold Hnew) as Hne.
  pose proof Hwf as (Hsym & _ & Hirr).
  destruct (relabel_node bg old_name new_name) as [bg1|e] eqn:Hr;
    [|unfold relabel_node, get_define in Hr; rewrite Hd in Hr; done].
  pose proof (defines_relabel _ _ _ _ Hr) as [d' [Hd' Hdefs]]. rewrite Hd in Hd'. injection Hd' as <-.
  assert (Hpt : pair_table bg1 = pair_table bg).
  { unfold relabel_node, get_define in Hr. rewrite Hd in Hr. by injection Hr as <-. }
  pose proof (fun z w => relabel_nbrs_back bg old_name new_name bg1 z w Hwf Hold Hnew Hr) as Hn.
  subst r. simpl. destruct keep; simpl.
  - split; [|split; [naive_solver|naive_solver]].
    intros bg' [= <-]. split; [done|split; [done|]]. intros z w. rewrite Hn. naive_solver.
  - assert (Hiff : (other ∈ nbrs bg1 new_name /\ new_name ∈ nbrs bg1 other) <-> other ∈ nbrs bg old_name).
    { rewrite !Hn.
      assert (Hnn : rename new_name old_name new_name = old_name) by (unfold rename; by rewrite decide_True).
      rewrite Hnn. destruct (decide (other = new_name)) as [->|Hon].
      - rewrite Hnn. split; [intros ((_ & _ & H1) & _); by apply Hirr in H1|].
        intros H1. by apply (wf_fresh_not_nbr bg new_name old_name) in H1.
      - assert (Hro : rename new_name old_name other = other) by (unfold rename; by rewrite decide_False).
        rewrite Hro. split; [naive_solver|].
        intros H. assert (other <> old_name) by (intros ->; by apply Hirr in H).
        split; [done|]. split; [done|]. split; [done|]. by apply Hsym. }
    split; [|split].
    + intros bg' Hre. split; [by rewrite (defines_remove_edge _ _ _ _ Hre)|].
      split; [unfold _remove_edge in Hre; repeat case_decide; try done; by injection Hre as <-|].
      intros z w. rewrite (elem_of_nbrs_remove_edge _ _ _ _ _ _ Hre), Hn. naive_solver.
    + rewrite remove_edge_Ok_iff. split.
      * intros (H1 & H2 & _). right. by apply Hiff.
      * intros [|H]; [done|]. split; [|split]; [by apply Hiff..|].
        intros <-. by apply (wf_fresh_not_nbr bg new_name old_name).
    + intros e. unfold _remove_edge. repeat case_decide; congruence.
Qed.

(** When the left element of [_split_between_elements] is a hairpin or
    multiloop segment, it is relabeled to a fresh 't' name with the same
    define; a hairpin keeps all its edges, a multiloop segment loses its
    edge to [element_right]; the call fails, with [KeyError], exactly when
    the element is a multiloop segment not joined to [element_right]. *)
Theorem split_between_elements_loop_left bg splitpoint element_left element_right d :
  well_formed bg -> defines bg !! element_left = Some d -> tag_in element_left "mh" = true ->
  let next3 := _next_available_element_name bg "t" in
  let keep := tag_is element_left "h"%char in
  let r := _split_between_elements bg splitpoint element_left element_right in
  tag_is next3 "t"%char = true /\ defines bg !! next3 = None /\
  (forall bg', r = Ok bg' ->
     defines bg' = <[next3 := d]> (delete element_left (defines bg)) /\
     pair_table bg' = pair_table bg /\
     forall z w, w ∈ nbrs bg' z <->
       z <> element_left /\ w <> element_left /\
       rename next3 element_left w ∈ nbrs bg (rename next3 element_left z) /\
       (keep = false -> ~ ((z = next3 /\ w = element_right) \/ (z = element_right /\ w = next3)))) /\
  ((exists bg', r = Ok bg') <-> keep = true \/ element_right ∈ nbrs bg element_left) /\
  (forall e, r = Err e -> e = KeyError).
Proof.
  intros Hwf Hd Htag next3 keep r.
  split; [apply (next_name_tag bg "t"%char)|split; [apply next_name_fresh|]].
  subst r. unfold _split_between_elements. rewrite Htag.
  exact (relabel_remove_edge_result bg element_left next3 element_right d keep Hwf Hd
           (next_name_fresh bg "t")).
Qed.

(** When only the right element of [_split_between_elements] is a hairpin
    or multiloop segment, it is relabeled to a fresh 'f' name with the same
    define, and loses its edge to [element_left] unless it is a hairpin;
    the call fails, with [KeyError], exactly when it is a multiloop segment
    not joined to [element_left]. *)
Theorem split_between_elements_loop_right bg splitpoint element_left element_right d :
  well_formed bg -> defines bg !! element_right = Some d ->
  tag_in element_left "mh" = false -> tag_in element_right "mh" = true ->
  let next5 := _next_available_element_name bg "f" in
  let keep := tag_is element_right "h"%char in
  let r := _split_between_elements bg splitpoint element_left element_right in
  tag_is next5 "f"%char = true /\ defines bg !! next5 = None /\
  (forall bg', r = Ok bg' ->
     defines bg' = <[next5 := d]> (delete element_right (defines bg)) /\
     pair_table bg' = pair_table bg /\
     forall z w, w ∈ nbrs bg' z <->
       z <> element_right /\ w <> element_right /\
       rename next5 element_right w ∈ nbrs bg (rename next5 element_right z) /\
       (keep = false -> ~ ((z = next5 /\ w = element_left) \/ (z = element_left /\ w = next5)))) /\
  ((exists bg', r = Ok bg') <-> keep = true \/ element_left ∈ nbrs bg element_right) /\
  (forall e, r = Err e -> e = KeyError).
Proof.
  intros Hwf Hd Hl Htag next5 keep r.
  split; [apply (next_name_tag bg "f"%char)|split; [apply next_name_fresh|]].
  subst r. unfold _split_between_elements. rewrite Hl, Htag.
  exact (relabel_remove_edge_result bg element_right next5 element_left d keep Hwf Hd
           (next_name_fresh bg "f")).
Qed.

(** ** Stem lengths across [_split_inside_stem] *)

Lemma split_inside_stem_new_stems bg splitpoint element d bg' :
  defines bg !! element = Some d -> d !! 1%nat <> Some splitpoint ->
  _split_inside_stem bg splitpoint element = Ok bg' ->
  exists d0 d1 d2 d3 S1 S2 (define1 define2 : list Z),
    d !! 0%nat = Some d0 /\ d !! 1%nat = Some d1 /\ d !! 2%nat = Some d2 /\ d !! 3%nat = Some d3 /\
    (define1, define2) =
      (if decide (splitpoint < d1) then
         ([d0; splitpoint; pairing_partner bg splitpoint; d3],
          [splitpoint + 1; d1; d2; pairing_partner bg (splitpoint + 1)])
       else
         ([d0; pairing_partner bg (splitpoint + 1); splitpoint + 1; d3],
          [pairing_partner bg splitpoint; d1; d2; splitpoint])) /\
    S1 <> S2 /\ tag_is S1 "s"%char = true /\ tag_is S2 "s"%char = true /\
    defines bg' !! S1 = Some define1 /\ defines bg' !! S2 = Some define2.
Proof.
  intros Hd Hd1 H. unfold _split_inside_stem in H. inv_bind H.
  unfold get_define in Hbind0; rewrite Hd in Hbind0; injection Hbind0 as <-.
  case_decide as Hsp; [subst; unfold nth_err in Hbind1; by destruct (d !! 1%nat); simplify_eq|].
  inv_bind H. injection H as <-.
  set (define1 := (if decide (splitpoint < a1) then _ else _).1) in *.
  set (define2 := (if decide (splitpoint < a1) then _ else _).2) in *.
  set (bg1 := remove_vertex bg element) in *.
  set (S1 := _next_available_element_name bg1 "s") in *.
  set (bg2 := put_define bg1 S1 define1) in *.
  set (M := _next_available_element_name bg2 "m") in *.
  set (bg3 := put_define bg2 M []) in *.
  set (S2 := _next_available_element_name bg3 "s") in *.
  pose proof (next_name_fresh bg3 "s") as FS3. fold S2 in FS3.
  assert (NS1M : S1 <> M) by apply next_name_s_m.
  assert (NS12 : S1 <> S2).
  { intros Heq. unfold bg3, bg2 in FS3. simpl in FS3. rewrite <-Heq in FS3.
    rewrite lookup_insert_ne in FS3 by done. by rewrite lookup_insert_eq in FS3. }
  unfold nth_err in *.
  destruct d as [|x0 [|x1 [|x2 [|x3 rest]]]]; simpl in *; simplify_eq.
  eexists _, _, _, _, S1, S2, define1, define2.
  do 4 (split; [reflexivity|]). split; [unfold define1, define2; by case_decide|].
  split; [done|]. split; [apply next_name_tag|split; [apply next_name_tag|]].
  simpl. rewrite !defines_add_all. simpl.
  split.
  - rewrite lookup_insert_ne by done. rewrite lookup_insert_ne by done. by rewrite lookup_insert_eq.
  - by rewrite lookup_insert_eq.
Qed.

(** A cut inside a stem splits its base pairs between the two new stems:
    their [stem_length]s add up to the old stem's, when the cut is in the
    forward strand, and when it is in the backward strand with the
    partners of [splitpoint] and [splitpoint + 1] adjacent. *)
Theorem split_inside_stem_stem_lengths bg splitpoint element d bg' :
  defines bg !! element = Some d -> d !! 1%nat <> Some splitpoint ->
  _split_inside_stem bg splitpoint element = Ok bg' ->
  (forall d1, d !! 1%nat = Some d1 -> splitpoint < d1 \/
     pairing_partner bg splitpoint = pairing_partner bg (splitpoint + 1) + 1) ->
  exists S1 S2 L1 L2,
    S1 <> S2 /\ tag_is S1 "s"%char = true /\ tag_is S2 "s"%char = true /\
    stem_length bg' S1 = Ok L1 /\ stem_length bg' S2 = Ok L2 /\
    stem_length bg element = Ok (L1 + L2).
Proof.
  intros Hd Hd1 H Hpp.
  assert (Htag : tag_is element "s"%char = true).
  { unfold _split_inside_stem in H. by destruct (tag_is element "s"%char). }
  destruct (split_inside_stem_new_stems bg splitpoint element d bg' Hd Hd1 H)
    as (d0 & d1 & d2 & d3 & S1 & S2 & define1 & define2 & E0 & E1 & E2 & E3 & Hdefs &
        NS12 & T1 & T2 & D1 & D2).
  specialize (Hpp d1 E1).
  assert (HL : forall g k (x0 x1 x2 x3 : Z), tag_is k "s"%char = true -> defines g !! k = Some [x0; x1; x2; x3] ->
            stem_length g k = Ok (x1 - x0 + 1)).
  { intros g k x0 x1 x2 x3 Hk Hg. unfold stem_length, get_define. by rewrite Hg, Hk. }
  exists S1, S2.
  destruct (decide (splitpoint < d1)); injection Hdefs as -> ->; eexists _, _;
    (split; [done|split; [done|split; [done|]]]);
    (split; [by apply (HL _ _ _ _ _ _ T1 D1)|split; [by apply (HL _ _ _ _ _ _ T2 D2)|]]);
    unfold stem_length, get_define; rewrite Hd, Htag; simpl; unfold nth_err; rewrite E0, E1;
    simpl; f_equal; lia.
Qed.

(** ** Witnesses *)

Lemma remove_edge_then_add_edge_witness :
  _remove_edge g_hairpin "s0" "h0" =
    Ok (match _remove_edge g_hairpin "s0" "h0" with Ok g => g | Err _ => g_hairpin end) /\
  _add_edge (match _remove_edge g_hairpin "s0" "h0" with Ok g => g | Err _ => g_hairpin end)
    "s0" "h0" = g_hairpin.
Proof.
  assert (H : _remove_edge g_hairpin "s0" "h0" =
    Ok (match _remove_edge g_hairpin "s0" "h0" with Ok g => g | Err _ => g_hairpin end))
    by (vm_compute; reflexivity).
  split; [exact H|]. exact (remove_edge_then_add_edge g_hairpin "s0" "h0" _ H).
Defined.

Lemma add_edge_then_remove_edge_witness :
  "s0" <> "s1" /\ ("s1" ∉ nbrs g_iloop "s0") /\ ("s0" ∉ nbrs g_iloop "s1") /\
  exists bg', _remove_edge (_add_edge g_iloop "s0" "s1") "s0" "s1" = Ok bg' /\
    defines bg' = defines g_iloop /\ pair_table bg' = pair_table g_iloop /\
    forall z, nbrs bg' z = nbrs g_iloop z.
Proof.
  assert (H1 : "s0" <> "s1") by discriminate.
  assert (H2 : "s1" ∉ nbrs g_iloop "s0") by (apply (bool_decide_unpack _); vm_compute; reflexivity).
  assert (H3 : "s0" ∉ nbrs g_iloop "s1") by (apply (bool_decide_unpack _); vm_compute; reflexivity).
  split; [exact H1|split; [exact H2|split; [exact H3|]]].
  exact (add_edge_then_remove_edge g_iloop "s0" "s1" H1 H2 H3).
Defined.

Lemma split_at_cofold_cutpoints_empty_graph_witness :
  defines (mkBG ∅ ∅ ∅) = ∅ /\
  split_at_cofold_cutpoints (mkBG ∅ ∅ ∅) [3] = Err LookupError.
Proof.
  split; [reflexivity|].
  exact (split_at_cofold_cutpoints_empty_graph (mkBG ∅ ∅ ∅) [3] eq_refl).
Defined.

Lemma split_inside_loop_result_witness :
  defines g_hairpin !! "h0" = Some [3; 5] /\
  _split_inside_loop g_hairpin 4 "h0" =
    Ok (match _split_inside_loop g_hairpin 4 "h0" with Ok g => g | Err _ => g_hairpin end) /\
  exists next3 next5 stem_left stem_right,
    get_node_from_residue_num g_hairpin 2 = Ok stem_left /\
    get_node_from_residue_num g_hairpin 6 = Ok stem_right /\
    defines (match _split_inside_loop g_hairpin 4 "h0" with Ok g => g | Err _ => g_hairpin end) =
      <[next5 := [5; 5]]> (<[next3 := [3; 4]]> (delete "h0" (defines g_hairpin))).
Proof.
  assert (Hd : defines g_hairpin !! "h0" = Some [3; 5]) by (vm_compute; reflexivity).
  assert (H : _split_inside_loop g_hairpin 4 "h0" =
    Ok (match _split_inside_loop g_hairpin 4 "h0" with Ok g => g | Err _ => g_hairpin end))
    by (vm_compute; reflexivity).
  split; [exact Hd|split; [exact H|]].
  destruct (split_inside_loop_result g_hairpin 4 "h0" 3 5 _ Hd H)
    as (next3 & next5 & sl & sr & Hl & Hr & _ & _ & _ & _ & Hdefs & _).
  exists next3, next5, sl, sr. split; [exact Hl|split; [exact Hr|exact Hdefs]].
Defined.

Lemma split_between_elements_loop_left_witness :
  well_formed g_two_hairpins /\ defines g_two_hairpins !! "m0" = Some [6; 7] /\
  tag_in "m0" "mh" = true /\
  exists bg', _split_between_elements g_two_hairpins 7 "m0" "s1" = Ok bg'.
Proof.
  assert (Hwf : well_formed g_two_hairpins)
    by (apply well_formed_check_sound, (bool_decide_unpack (well_formed_check g_two_hairpins));
        vm_compute; reflexivity).
  assert (Hd : defines g_two_hairpins !! "m0" = Some [6; 7]) by (vm_compute; reflexivity).
  assert (Ht : tag_in "m0" "mh" = true) by reflexivity.
  split; [exact Hwf|split; [exact Hd|split; [exact Ht|]]].
  destruct (split_between_elements_loop_left g_two_hairpins 7 "m0" "s1" [6; 7] Hwf Hd Ht)
    as (_ & _ & _ & Hiff & _).
  apply Hiff. right. apply (bool_decide_unpack _). vm_compute. reflexivity.
Defined.

Lemma split_between_elements_loop_right_witness :
  well_formed g_two_hairpins /\ defines g_two_hairpins !! "m0" = Some [6; 7] /\
  tag_in "s0" "mh" = false /\ tag_in "m0" "mh" = true /\
  exists bg', _split_between_elements g_two_hairpins 5 "s0" "m0" = Ok bg'.
Proof.
  assert (Hwf : well_formed g_two_hairpins)
    by (apply well_formed_check_sound, (bool_decide_unpack (well_formed_check g_two_hairpins));
        vm_compute; reflexivity).
  assert (Hd : defines g_two_hairpins !! "m0" = Some [6; 7]) by (vm_compute; reflexivity).
  assert (Hl : tag_in "s0" "mh" = false) by reflexivity.
  assert (Ht : tag_in "m0" "mh" = true) by reflexivity.
  split; [exact Hwf|split; [exact Hd|split; [exact Hl|split; [exact Ht|]]]].
  destruct (split_between_elements_loop_right g_two_hairpins 5 "s0" "m0" [6; 7] Hwf Hd Hl Ht)
    as (_ & _ & _ & Hiff & _).
  apply Hiff. right. apply (bool_decide_unpack _). vm_compute. reflexivity.
Defined.

Lemma split_inside_stem_stem_lengths_witness :
  _split_inside_stem g_hairpin 1 "s0" = Ok g_hairpin_cut1 /\
  exists S1 S2 L1 L2, S1 <> S2 /\
    stem_length g_hairpin_cut1 S1 = Ok L1 /\ stem_length g_hairpin_cut1 S2 = Ok L2 /\
    stem_length g_hairpin "s0" = Ok (L1 + L2).
Proof.
  assert (Hd : defines g_hairpin !! "s0" = Some [1; 2; 6; 7]) by (vm_compute; reflexivity).
  assert (Hs : _split_inside_stem g_hairpin 1 "s0" = Ok g_hairpin_cut1) by (vm_compute; reflexivity).
  split; [exact Hs|].
  destruct (split_inside_stem_stem_lengths g_hairpin 1 "s0" [1; 2; 6; 7] g_hairpin_cut1 Hd
              ltac:(discriminate) Hs
              ltac:(intros d1 Hd1; simpl in Hd1; injection Hd1 as <-; left; lia))
    as (S1 & S2 & L1 & L2 & HS & _ & _ & H1 & H2 & H).
  exists S1, S2, L1, L2. split; [exact HS|split; [exact H1|split; [exact H2|exact H]]].
Defined.
